(** * DocumentDatabase (app/core/db.py): a document store over SQLite

    The development embeds [DocumentDatabase] of [src/app/core/db.py]:
    the table registry [TABLES], [_check_table], [add_row], [add_all],
    [get_all], [find] and [close].  The program talks to two libraries,
    Python's [json] module and the [sqlite3] engine; both are modelled
    below for the values and the statement forms the program uses. *)

From Stdlib Require Import ZArith List String Ascii Bool Lia.
From Stdlib Require Import Decimal DecimalString DecimalFacts DecimalPos DecimalZ.
From stdpp Require Import gmap strings.
Import ListNotations.

Local Open Scope string_scope.
Local Open Scope list_scope.

(** ** Documents

    A document is a Python value that [json.dumps] takes: [None], a
    [bool], an [int], a [str], a [list], a [tuple] or a [dict] with string
    keys.  [json.loads] returns all of these but a [tuple].  A Python
    [dict] keeps its keys in insertion order and has no duplicate key; it
    is an association list here.  [json_wf] says that a document is one
    that [json.loads] can return: no key occurs twice in a dict, and there
    is no tuple.  A [str] is a [string] whose characters stand for the
    code points below 256; numbers are the integers.  A [float] and a
    character of a higher code point are out of the model. *)
Module Json.

Unset Elimination Schemes.
Inductive json : Type :=
| JNull
| JBool (b : bool)
| JInt (z : Z)
| JStr (s : string)
| JList (l : list json)
| JDict (m : list (string * json))
| JTuple (l : list json).
Set Elimination Schemes.

(** [d[k] = v] on a dict: the value is replaced where the key is, a new
    key is added at the end. *)
Fixpoint dict_set {A : Type} (k : string) (v : A) (d : list (string * A))
  : list (string * A) :=
  match d with
  | [] => [(k, v)]
  | (k', v') :: d' =>
      if String.eqb k' k then (k', v) :: d' else (k', v') :: dict_set k v d'
  end.

(** [d.get(k)] *)
Fixpoint dict_get {A : Type} (k : string) (d : list (string * A)) : option A :=
  match d with
  | [] => None
  | (k', v') :: d' => if String.eqb k' k then Some v' else dict_get k d'
  end.

(** [dict(pairs)] *)
Definition dict_of_pairs {A : Type} (pairs : list (string * A))
  : list (string * A) :=
  fold_left (fun d kv => dict_set (fst kv) (snd kv) d) pairs [].

Fixpoint mem_string (k : string) (l : list string) : bool :=
  match l with
  | [] => false
  | k' :: l' => String.eqb k' k || mem_string k l'
  end.

Fixpoint nodup_keys (l : list string) : bool :=
  match l with
  | [] => true
  | k :: l' => negb (mem_string k l') && nodup_keys l'
  end.

(** No dict of the document has a key twice, and the document holds no
    tuple. *)
Fixpoint json_wf (v : json) : bool :=
  match v with
  | JList l => forallb json_wf l
  | JDict m =>
      nodup_keys (map fst m) && forallb (fun kv => json_wf (snd kv)) m
  | JTuple _ => false
  | _ => true
  end.

(** *** [json.dumps], with its default arguments (ASCII output, a comma
    and a colon each followed by one space) *)

Definition dquote : ascii := Ascii false true false false false true false false.
Definition quoted (s : string) : string := String dquote (s +:+ String dquote "").

Definition hex_digit (n : N) : ascii :=
  match n with
  | 0 => "0" | 1 => "1" | 2 => "2" | 3 => "3" | 4 => "4" | 5 => "5"
  | 6 => "6" | 7 => "7" | 8 => "8" | 9 => "9" | 10 => "a" | 11 => "b"
  | 12 => "c" | 13 => "d" | 14 => "e" | _ => "f"
  end%N%char.

(** One character of a string, as [encode_basestring_ascii] writes it. *)
Definition escape_char (c : ascii) : string :=
  let n := N_of_ascii c in
  if (n =? 34)%N then String "\" (String dquote "")
  else if (n =? 92)%N then "\\"
  else if (n =? 10)%N then "\n"
  else if (n =? 13)%N then "\r"
  else if (n =? 9)%N then "\t"
  else if (n =? 12)%N then "\f"
  else if (n =? 8)%N then "\b"
  else if ((32 <=? n) && (n <=? 126))%N then String c ""
  else "\u00" +:+ String (hex_digit (n / 16)) (String (hex_digit (n mod 16)) "").

Fixpoint escape (s : string) : string :=
  match s with
  | "" => ""
  | String c s' => escape_char c +:+ escape s'
  end.

Definition dumps_str (s : string) : string := quoted (escape s).

Definition dumps_int (z : Z) : string := NilEmpty.string_of_int (Z.to_int z).

Fixpoint dumps (v : json) : string :=
  match v with
  | JNull => "null"
  | JBool true => "true"
  | JBool false => "false"
  | JInt z => dumps_int z
  | JStr s => dumps_str s
  | JList l | JTuple l => "[" +:+ String.concat ", " (map dumps l) +:+ "]"
  | JDict m =>
      "{" +:+ String.concat ", "
                (map (fun kv => dumps_str (fst kv) +:+ ": " +:+ dumps (snd kv)) m)
          +:+ "}"
  end.

(** *** [json.loads] *)

Definition is_ws (c : ascii) : bool :=
  let n := N_of_ascii c in
  ((n =? 32) || (n =? 9) || (n =? 10) || (n =? 13))%N.

Fixpoint skip_ws (s : string) : string :=
  match s with
  | String c r => if is_ws c then skip_ws r else s
  | "" => ""
  end.

Definition hex_val (c : ascii) : option N :=
  let n := N_of_ascii c in
  if ((48 <=? n) && (n <=? 57))%N then Some (n - 48)%N
  else if ((97 <=? n) && (n <=? 102))%N then Some (n - 87)%N
  else if ((65 <=? n) && (n <=? 70))%N then Some (n - 55)%N
  else None.

Definition hex4 (a b c d : ascii) : option N :=
  match hex_val a, hex_val b, hex_val c, hex_val d with
  | Some x, Some y, Some z, Some w => Some (((x * 16 + y) * 16 + z) * 16 + w)%N
  | _, _, _, _ => None
  end.

(** The character a backslash escape stands for (the escape with four
    hexadecimal digits apart). *)
Definition unescape (e : ascii) : option ascii :=
  let n := N_of_ascii e in
  if (n =? 34)%N then Some dquote
  else if (n =? 92)%N then Some "\"%char
  else if (n =? 47)%N then Some "/"%char
  else if (n =? 98)%N then Some (ascii_of_N 8)
  else if (n =? 102)%N then Some (ascii_of_N 12)
  else if (n =? 110)%N then Some (ascii_of_N 10)
  else if (n =? 114)%N then Some (ascii_of_N 13)
  else if (n =? 116)%N then Some (ascii_of_N 9)
  else None.

Definition push_char (c : ascii) (o : option (string * string))
  : option (string * string) :=
  match o with
  | Some (x, r) => Some (String c x, r)
  | None => None
  end.

(** [scanstring], from the character after the opening quote: the string
    and the text after its closing quote.  A code point of 256 or more is
    out of the model. *)
Fixpoint scan_string (s : string) : option (string * string) :=
  match s with
  | "" => None
  | String c r =>
      let n := N_of_ascii c in
      if (n =? 34)%N then Some ("", r)
      else if (n =? 92)%N then
        match r with
        | String e r1 =>
            match unescape e with
            | Some c' => push_char c' (scan_string r1)
            | None =>
                if (N_of_ascii e =? 117)%N then
                  match r1 with
                  | String h1 (String h2 (String h3 (String h4 r2))) =>
                      match hex4 h1 h2 h3 h4 with
                      | Some cp =>
                          if (cp <? 256)%N
                          then push_char (ascii_of_N cp) (scan_string r2)
                          else None
                      | None => None
                      end
                  | _ => None
                  end
                else None
            end
        | "" => None
        end
      else if (n <? 32)%N then None
      else push_char c (scan_string r)
  end.

Definition digit_of_char (c : ascii) : option (uint -> uint) :=
  match c with
  | "0" => Some D0 | "1" => Some D1 | "2" => Some D2 | "3" => Some D3
  | "4" => Some D4 | "5" => Some D5 | "6" => Some D6 | "7" => Some D7
  | "8" => Some D8 | "9" => Some D9 | _ => None
  end%char.

Fixpoint scan_digits (s : string) : uint * string :=
  match s with
  | "" => (Nil, "")
  | String c r =>
      match digit_of_char c with
      | Some mk => let '(d, r') := scan_digits r in (mk d, r')
      | None => (Nil, s)
      end
  end.

(** The digits of a JSON integer: a single 0, or digits that do not start
    with 0. *)
Definition json_int_ok (d : uint) : bool :=
  match d with
  | Nil => false
  | D0 Nil => true
  | D0 _ => false
  | _ => true
  end.

(** A fraction or an exponent follows: the number is a float. *)
Definition float_mark (s : string) : bool :=
  match s with
  | String c _ =>
      let n := N_of_ascii c in ((n =? 46) || (n =? 101) || (n =? 69))%N
  | "" => false
  end.

(** An integer; a number with a fraction or an exponent is a [float], and
    is refused here as out of the model. *)
Definition parse_number (s : string) : option (json * string) :=
  let '(neg, s1) :=
    match s with
    | String c r => if (N_of_ascii c =? 45)%N then (true, r) else (false, s)
    | "" => (false, s)
    end in
  let '(d, r) := scan_digits s1 in
  if json_int_ok d && negb (float_mark r)
  then Some (JInt (Z.of_int (if neg then Neg d else Pos d)), r)
  else None.

Fixpoint strip_prefix (p s : string) : option string :=
  match p with
  | "" => Some s
  | String a p' =>
      match s with
      | String b s' => if Ascii.eqb a b then strip_prefix p' s' else None
      | "" => None
      end
  end.

(** The elements of an array after the first bracket, up to the closing
    bracket; [pv] reads one value. *)
Fixpoint parse_items (pv : string -> option (json * string)) (n : nat)
    (s : string) : option (list json * string) :=
  match n with
  | O => None
  | S n' =>
      match pv s with
      | None => None
      | Some (v, r) =>
          match skip_ws r with
          | String c r' =>
              if (N_of_ascii c =? 93)%N then Some ([v], r')
              else if (N_of_ascii c =? 44)%N then
                match parse_items pv n' r' with
                | Some (vs, r'') => Some (v :: vs, r'')
                | None => None
                end
              else None
          | "" => None
          end
      end
  end.

(** The members of an object after the first brace, up to the closing
    brace. *)
Fixpoint parse_members (pv : string -> option (json * string)) (n : nat)
    (s : string) : option (list (string * json) * string) :=
  match n with
  | O => None
  | S n' =>
      match skip_ws s with
      | String q r =>
          if (N_of_ascii q =? 34)%N then
            match scan_string r with
            | Some (k, r1) =>
                match skip_ws r1 with
                | String c r2 =>
                    if (N_of_ascii c =? 58)%N then
                      match pv r2 with
                      | Some (v, r3) =>
                          match skip_ws r3 with
                          | String c' r4 =>
                              if (N_of_ascii c' =? 125)%N then Some ([(k, v)], r4)
                              else if (N_of_ascii c' =? 44)%N then
                                match parse_members pv n' r4 with
                                | Some (kvs, r5) => Some ((k, v) :: kvs, r5)
                                | None => None
                                end
                              else None
                          | "" => None
                          end
                      | None => None
                      end
                    else None
                | "" => None
                end
            | None => None
            end
          else None
      | "" => None
      end
  end.

Fixpoint parse_value (fuel : nat) (s : string) : option (json * string) :=
  match fuel with
  | O => None
  | S f =>
      match skip_ws s with
      | "" => None
      | String c r as s' =>
          let n := N_of_ascii c in
          if (n =? 34)%N then
            match scan_string r with
            | Some (x, r') => Some (JStr x, r')
            | None => None
            end
          else if (n =? 91)%N then
            match skip_ws r with
            | String c' r' =>
                if (N_of_ascii c' =? 93)%N then Some (JList [], r')
                else
                  match parse_items (parse_value f) f r with
                  | Some (vs, r'') => Some (JList vs, r'')
                  | None => None
                  end
            | "" => None
            end
          else if (n =? 123)%N then
            match skip_ws r with
            | String c' r' =>
                if (N_of_ascii c' =? 125)%N then Some (JDict [], r')
                else
                  match parse_members (parse_value f) f r with
                  | Some (kvs, r'') => Some (JDict (dict_of_pairs kvs), r'')
                  | None => None
                  end
            | "" => None
            end
          else
            match strip_prefix "null" s' with
            | Some r' => Some (JNull, r')
            | None =>
                match strip_prefix "true" s' with
                | Some r' => Some (JBool true, r')
                | None =>
                    match strip_prefix "false" s' with
                    | Some r' => Some (JBool false, r')
                    | None => parse_number s'
                    end
                end
            end
      end
  end.

(** [json.loads]: one value, then nothing but white space.  [None] stands
    for [json.JSONDecodeError]; it is also the answer for a text that is
    out of the model (a number with a fraction or an exponent, a
    character of code point 256 or more), which [json.loads] accepts. *)
Definition loads (text : string) : option json :=
  match parse_value (S (String.length text)) text with
  | Some (v, r) => match skip_ws r with "" => Some v | _ => None end
  | None => None
  end.

(** What may follow a value in a text: nothing, or a character that cannot
    continue a number. *)
Definition delim (s : string) : bool :=
  match s with
  | "" => true
  | String c _ =>
      match digit_of_char c with
      | Some _ => false
      | None => negb (float_mark s)
      end
  end.

(** The number of values in a document: fuel enough to parse its text. *)
Fixpoint jsize (v : json) : nat :=
  match v with
  | JList l | JTuple l => S (list_sum (map jsize l))
  | JDict m => S (list_sum (map (fun kv => jsize (snd kv)) m))
  | _ => 1
  end.

(** With fuel [f], the text of [x] is read back as [x], whatever follows
    it. *)
Definition reads (f : nat) (x : json) : Prop :=
  forall rest, delim rest = true -> parse_value f (dumps x +:+ rest) = Some (x, rest).

(** The text of a member of an object. *)
Definition dumps_member (kv : string * json) : string :=
  dumps_str (fst kv) +:+ ": " +:+ dumps (snd kv).

End Json.

(** ** The storage engine

    A model of the [sqlite3] connection for the statements the program
    sends: [CREATE TABLE IF NOT EXISTS t (data TEXT)], [INSERT INTO t
    VALUES (?)], [SELECT * FROM t], [SELECT * FROM t WHERE e] and
    [SELECT 1].  The engine receives the statement as text, so the text is
    tokenized and parsed here as the engine does it; [e] is built from
    literals, columns, [json_extract], [=], [AND], [OR] and parentheses,
    and text outside this fragment is refused as a syntax error. *)
Module Sql.
Import Json.

Inductive sqlvalue : Type :=
| VNull
| VInt (z : Z)
| VText (s : string).

Inductive token : Type :=
| TId (s : string)
| TStr (s : string)
| TNum (z : Z)
| TLParen | TRParen | TComma | TEq | TStar | TParam | TMinus
| TOther (c : ascii).

Definition squote : ascii := "'"%char.

(** A string literal from the character after its opening quote; two
    quotes in a row stand for one quote. *)
Fixpoint scan_literal (s : string) : option (string * string) :=
  match s with
  | "" => None
  | String c r =>
      if Ascii.eqb c squote then
        match r with
        | String c2 r2 =>
            if Ascii.eqb c2 squote then push_char squote (scan_literal r2)
            else Some ("", r)
        | "" => Some ("", "")
        end
      else push_char c (scan_literal r)
  end.

Definition is_space (c : ascii) : bool :=
  let n := N_of_ascii c in
  ((n =? 32) || ((9 <=? n) && (n <=? 13)))%N.

Definition is_digit (c : ascii) : bool :=
  let n := N_of_ascii c in ((48 <=? n) && (n <=? 57))%N.

Definition is_ident_start (c : ascii) : bool :=
  let n := N_of_ascii c in
  (((65 <=? n) && (n <=? 90)) || ((97 <=? n) && (n <=? 122)) || (n =? 95)
   || (128 <=? n))%N.

Definition is_ident_char (c : ascii) : bool :=
  is_ident_start c || is_digit c || Ascii.eqb c "$"%char.

Fixpoint scan_ident (s : string) : string * string :=
  match s with
  | "" => ("", "")
  | String c r =>
      if is_ident_char c then let '(x, r') := scan_ident r in (String c x, r')
      else ("", s)
  end.

(** The text after the end of the line: what follows a comment. *)
Fixpoint skip_line (s : string) : string :=
  match s with
  | "" => ""
  | String c r => if (N_of_ascii c =? 10)%N then r else skip_line r
  end.

(** The text after the end of a block comment; a comment with no end
    runs to the end of the text. *)
Fixpoint skip_block (s : string) : string :=
  match s with
  | "" => ""
  | String c r =>
      if Ascii.eqb c "*"%char then
        match r with
        | String c2 r2 => if Ascii.eqb c2 "/"%char then r2 else skip_block r
        | "" => ""
        end
      else skip_block r
  end.

Definition cons_token (t : token) (o : option (list token * string))
  : option (list token * string) :=
  match o with
  | Some (ts, rest) => Some (t :: ts, rest)
  | None => None
  end.

Definition punct (c : ascii) : token :=
  let n := N_of_ascii c in
  if (n =? 40)%N then TLParen
  else if (n =? 41)%N then TRParen
  else if (n =? 44)%N then TComma
  else if (n =? 61)%N then TEq
  else if (n =? 42)%N then TStar
  else if (n =? 63)%N then TParam
  else TOther c.

(** The tokens of the first statement of a text and the text after its
    semicolon; [None] when a string literal has no end. *)
Fixpoint lex (fuel : nat) (s : string) : option (list token * string) :=
  match fuel with
  | O => None
  | S f =>
      match s with
      | "" => Some ([], "")
      | String c r =>
          if is_space c then lex f r
          else if Ascii.eqb c ";"%char then Some ([], r)
          else if Ascii.eqb c squote then
            match scan_literal r with
            | Some (x, r') => cons_token (TStr x) (lex f r')
            | None => None
            end
          else if Ascii.eqb c "-"%char then
            match r with
            | String c2 r2 =>
                if Ascii.eqb c2 "-"%char then lex f (skip_line r2)
                else cons_token TMinus (lex f r)
            | "" => Some ([TMinus], "")
            end
          else if Ascii.eqb c "/"%char then
            match r with
            | String c2 r2 =>
                if Ascii.eqb c2 "*"%char then lex f (skip_block r2)
                else cons_token (TOther c) (lex f r)
            | "" => Some ([TOther c], "")
            end
          else if is_digit c then
            let '(d, r') := scan_digits s in
            cons_token (TNum (Z.of_uint d)) (lex f r')
          else if is_ident_start c then
            let '(x, r') := scan_ident s in
            cons_token (TId x) (lex f r')
          else cons_token (punct c) (lex f r)
      end
  end.

Definition tokenize (s : string) : option (list token * string) :=
  lex (S (String.length s)) s.

(** Nothing but white space and comments: what may follow a statement. *)
Fixpoint blank (fuel : nat) (s : string) : bool :=
  match fuel with
  | O => false
  | S f =>
      match s with
      | "" => true
      | String c r =>
          if is_space c then blank f r
          else if Ascii.eqb c "-"%char then
            match r with
            | String c2 r2 => Ascii.eqb c2 "-"%char && blank f (skip_line r2)
            | "" => false
            end
          else if Ascii.eqb c "/"%char then
            match r with
            | String c2 r2 => Ascii.eqb c2 "*"%char && blank f (skip_block r2)
            | "" => false
            end
          else false
      end
  end.

Definition lower_char (c : ascii) : ascii :=
  let n := N_of_ascii c in
  if ((65 <=? n) && (n <=? 90))%N then ascii_of_N (n + 32) else c.

Fixpoint lower (s : string) : string :=
  match s with
  | "" => ""
  | String c r => String (lower_char c) (lower r)
  end.

(** Keywords and names are compared without regard to case. *)
Definition same_word (w x : string) : bool := String.eqb w (lower x).

Inductive expr : Type :=
| ELit (v : sqlvalue)
| ECol (name : string)
| EParam
| EJsonExtract (doc path : expr)
| EEq (a b : expr)
| EAnd (a b : expr)
| EOr (a b : expr).

Definition parser : Type := list token -> option (expr * list token).

Definition expect (t : token -> bool) (k : list token -> option (expr * list token))
  : list token -> option (expr * list token) :=
  fun ts => match ts with
            | t' :: r => if t t' then k r else None
            | [] => None
            end.

Definition is_comma (t : token) : bool := match t with TComma => true | _ => false end.
Definition is_rparen (t : token) : bool := match t with TRParen => true | _ => false end.

Definition word_value (x : string) : expr :=
  if same_word "true" x then ELit (VInt 1)
  else if same_word "false" x then ELit (VInt 0)
  else if same_word "null" x then ELit VNull
  else ECol x.

Definition parse_primary (pe : parser) : parser :=
  fun ts =>
    match ts with
    | TStr s :: r => Some (ELit (VText s), r)
    | TNum z :: r => Some (ELit (VInt z), r)
    | TMinus :: TNum z :: r => Some (ELit (VInt (- z)), r)
    | TParam :: r => Some (EParam, r)
    | TId f :: TLParen :: r =>
        if same_word "json_extract" f then
          match pe r with
          | Some (a, r1) =>
              expect is_comma (fun r2 =>
                match pe r2 with
                | Some (b, r3) =>
                    expect is_rparen (fun r4 => Some (EJsonExtract a b, r4)) r3
                | None => None
                end) r1
          | None => None
          end
        else None
    | TId x :: r =>
        if same_word "and" x || same_word "or" x then None
        else Some (word_value x, r)
    | TLParen :: r =>
        match pe r with
        | Some (a, r1) => expect is_rparen (fun r2 => Some (a, r2)) r1
        | None => None
        end
    | _ => None
    end.

(** [lhs (op rhs)*] for a left-associative operator [op]; [pp] reads an
    operand. *)
Fixpoint chain (is_op : token -> bool) (mk : expr -> expr -> expr) (pp : parser)
    (n : nat) (lhs : expr) (ts : list token) : option (expr * list token) :=
  match ts with
  | t :: r =>
      if is_op t then
        match n with
        | O => None
        | S n' =>
            match pp r with
            | Some (rhs, r') => chain is_op mk pp n' (mk lhs rhs) r'
            | None => None
            end
        end
      else Some (lhs, ts)
  | [] => Some (lhs, ts)
  end.

Definition chained (is_op : token -> bool) (mk : expr -> expr -> expr)
    (pp : parser) (n : nat) : parser :=
  fun ts => match pp ts with
            | Some (lhs, r) => chain is_op mk pp n lhs r
            | None => None
            end.

Definition is_eq (t : token) : bool := match t with TEq => true | _ => false end.
Definition is_word (w : string) (t : token) : bool :=
  match t with TId x => same_word w x | _ => false end.

Fixpoint parse_expr (fuel : nat) : parser :=
  match fuel with
  | O => fun _ => None
  | S f =>
      chained (is_word "or") EOr
        (chained (is_word "and") EAnd
           (chained is_eq EEq (parse_primary (parse_expr f)) f) f) f
  end.

(** *** JSON paths and [json_extract] *)

Inductive step : Type :=
| SKey (k : string)
| SIndex (i : nat).

Fixpoint scan_label (s : string) : string * string :=
  match s with
  | "" => ("", "")
  | String c r =>
      if Ascii.eqb c "."%char || Ascii.eqb c "["%char then ("", s)
      else let '(x, r') := scan_label r in (String c x, r')
  end.

Fixpoint scan_quoted_label (s : string) : option (string * string) :=
  match s with
  | "" => None
  | String c r =>
      if Ascii.eqb c dquote then Some ("", r)
      else push_char c (scan_quoted_label r)
  end.

Definition cons_step (x : step) (o : option (list step)) : option (list step) :=
  match o with
  | Some l => Some (x :: l)
  | None => None
  end.

(** The steps of a path after its dollar sign: a dot and a label, bare or
    between double quotes, or an index between brackets; [None] is a
    malformed path. *)
Fixpoint parse_steps (fuel : nat) (s : string) : option (list step) :=
  match fuel with
  | O => None
  | S f =>
      match s with
      | "" => Some []
      | String c r =>
          if Ascii.eqb c "."%char then
            match r with
            | String q r' =>
                if Ascii.eqb q dquote then
                  match scan_quoted_label r' with
                  | Some (k, r'') => cons_step (SKey k) (parse_steps f r'')
                  | None => None
                  end
                else
                  let '(k, r'') := scan_label r in
                  match k with
                  | "" => None
                  | _ => cons_step (SKey k) (parse_steps f r'')
                  end
            | "" => None
            end
          else if Ascii.eqb c "["%char then
            let '(d, r') := scan_digits r in
            match d, r' with
            | Nil, _ => None
            | _, String c' r'' =>
                if Ascii.eqb c' "]"%char
                then cons_step (SIndex (Nat.of_uint d)) (parse_steps f r'')
                else None
            | _, "" => None
            end
          else None
      end
  end.

Definition parse_path (p : string) : option (list step) :=
  match p with
  | String c r =>
      if Ascii.eqb c "$"%char then parse_steps (S (String.length r)) r else None
  | "" => None
  end.

Fixpoint json_lookup (v : json) (steps : list step) : option json :=
  match steps with
  | [] => Some v
  | SKey k :: steps' =>
      match v with
      | JDict m =>
          match dict_get k m with
          | Some x => json_lookup x steps'
          | None => None
          end
      | _ => None
      end
  | SIndex i :: steps' =>
      match v with
      | JList l =>
          match nth_error l i with
          | Some x => json_lookup x steps'
          | None => None
          end
      | _ => None
      end
  end.

(** JSON text without white space, as the engine writes an array or an
    object it returns. *)
Fixpoint minified (v : json) : string :=
  match v with
  | JList l | JTuple l => "[" +:+ String.concat "," (map minified l) +:+ "]"
  | JDict m =>
      "{" +:+ String.concat ","
                (map (fun kv => dumps_str (fst kv) +:+ ":" +:+ minified (snd kv)) m)
          +:+ "}"
  | _ => dumps v
  end.

(** The SQL value of a JSON value that [json_extract] found. *)
Definition sql_of_json (v : json) : sqlvalue :=
  match v with
  | JNull => VNull
  | JBool b => VInt (if b then 1 else 0)
  | JInt z => VInt z
  | JStr s => VText s
  | _ => VText (minified v)
  end.

(** [json_extract(doc, path)]; [None] is the error of a malformed document
    or path.  The document is read with the parser of [loads]: on a row
    that [json.dumps] wrote for a document of the model the engine reads
    the same value; on other rows (a key twice in an object, a number with
    a fraction) the engine may differ. *)
Definition json_extract (doc path : sqlvalue) : option sqlvalue :=
  match doc, path with
  | VNull, _ => Some VNull
  | _, VNull => Some VNull
  | _, VInt _ => None
  | VInt z, VText p =>
      match parse_path p with
      | Some steps =>
          Some (match json_lookup (JInt z) steps with
                | Some x => sql_of_json x
                | None => VNull
                end)
      | None => None
      end
  | VText t, VText p =>
      match loads t, parse_path p with
      | Some j, Some steps =>
          Some (match json_lookup j steps with
                | Some x => sql_of_json x
                | None => VNull
                end)
      | _, _ => None
      end
  end.

(** *** Evaluation of an expression on a row of a table with the one
    column [data] *)

Definition is_column (e : expr) : bool :=
  match e with ECol _ => true | _ => false end.

(** A column of type TEXT compared with a value that has no affinity: the
    value is turned into text. *)
Definition text_affinity (v : sqlvalue) : sqlvalue :=
  match v with
  | VInt z => VText (dumps_int z)
  | _ => v
  end.

Definition value_eqb (a b : sqlvalue) : bool :=
  match a, b with
  | VInt x, VInt y => (x =? y)%Z
  | VText x, VText y => String.eqb x y
  | _, _ => false
  end.

Definition sql_eq (a b : sqlvalue) : sqlvalue :=
  match a, b with
  | VNull, _ => VNull
  | _, VNull => VNull
  | _, _ => VInt (if value_eqb a b then 1 else 0)
  end.

(** The truth of a value: a number is true when it is not zero, a text
    through the integer it starts with. *)
Definition truth (v : sqlvalue) : option bool :=
  match v with
  | VNull => None
  | VInt z => Some (negb (z =? 0)%Z)
  | VText s =>
      let s1 := skip_ws s in
      let '(neg, s2) :=
        match s1 with
        | String c r => if Ascii.eqb c "-"%char then (true, r) else (false, s1)
        | "" => (false, s1)
        end in
      Some (negb (Z.of_uint (fst (scan_digits s2)) =? 0)%Z)
  end.

Definition sql_and (a b : sqlvalue) : sqlvalue :=
  match truth a, truth b with
  | Some false, _ => VInt 0
  | _, Some false => VInt 0
  | Some true, Some true => VInt 1
  | _, _ => VNull
  end.

Definition sql_or (a b : sqlvalue) : sqlvalue :=
  match truth a, truth b with
  | Some true, _ => VInt 1
  | _, Some true => VInt 1
  | Some false, Some false => VInt 0
  | _, _ => VNull
  end.

Fixpoint eval (row : string) (e : expr) : option sqlvalue :=
  match e with
  | ELit v => Some v
  | ECol _ => Some (VText row)
  | EParam => None
  | EJsonExtract d p =>
      match eval row d, eval row p with
      | Some dv, Some pv => json_extract dv pv
      | _, _ => None
      end
  | EEq a b =>
      match eval row a, eval row b with
      | Some va, Some vb =>
          let va' := if is_column b && negb (is_column a) then text_affinity va else va in
          let vb' := if is_column a && negb (is_column b) then text_affinity vb else vb in
          Some (sql_eq va' vb')
      | _, _ => None
      end
  | EAnd a b =>
      match eval row a, eval row b with
      | Some va, Some vb => Some (sql_and va vb)
      | _, _ => None
      end
  | EOr a b =>
      match eval row a, eval row b with
      | Some va, Some vb => Some (sql_or va vb)
      | _, _ => None
      end
  end.

(** The WHERE clause on a row: [Some true] keeps the row, [None] is an
    error.  A conjunction stops at its first operand that is not true, a
    disjunction at its first operand that is. *)
Fixpoint test (row : string) (e : expr) : option bool :=
  match e with
  | EAnd a b =>
      match test row a with
      | Some true => test row b
      | r => r
      end
  | EOr a b =>
      match test row a with
      | Some false => test row b
      | r => r
      end
  | _ =>
      match eval row e with
      | Some v => Some (match truth v with Some true => true | _ => false end)
      | None => None
      end
  end.

Fixpoint select_rows (e : expr) (rows : list string) : option (list string) :=
  match rows with
  | [] => Some []
  | row :: rows' =>
      match test row e, select_rows e rows' with
      | Some keep, Some l => Some (if keep then row :: l else l)
      | _, _ => None
      end
  end.

(** Every column an expression names is the column [data]. *)
Fixpoint resolves (e : expr) : bool :=
  match e with
  | ELit _ | EParam => true
  | ECol x => same_word "data" x
  | EJsonExtract a b | EEq a b | EAnd a b | EOr a b => resolves a && resolves b
  end.

(** The number of parameters an expression waits for. *)
Fixpoint params_of (e : expr) : nat :=
  match e with
  | ELit _ | ECol _ => 0
  | EParam => 1
  | EJsonExtract a b | EEq a b | EAnd a b | EOr a b => params_of a + params_of b
  end.

(** *** Statements *)

Inductive stmt : Type :=
| CreateTable (name : string)
| Insert (name : string)
| Select (name : string) (cond : option expr)
| SelectLit (z : Z).

Definition parse_stmt (ts : list token) : option stmt :=
  match ts with
  | [TId c; TId t; TId i; TId n; TId e; TId name; TLParen; TId col; TId ty; TRParen] =>
      if same_word "create" c && same_word "table" t && same_word "if" i
         && same_word "not" n && same_word "exists" e
         && same_word "data" col && same_word "text" ty
      then Some (CreateTable name) else None
  | [TId i; TId n; TId name; TId v; TLParen; TParam; TRParen] =>
      if same_word "insert" i && same_word "into" n && same_word "values" v
      then Some (Insert name) else None
  | [TId s; TNum z] =>
      if same_word "select" s then Some (SelectLit z) else None
  | TId s :: TStar :: TId f :: TId name :: rest =>
      if same_word "select" s && same_word "from" f then
        match rest with
        | [] => Some (Select name None)
        | TId w :: cond =>
            if same_word "where" w then
              match parse_expr (S (length cond)) cond with
              | Some (e, []) => Some (Select name (Some e))
              | _ => None
              end
            else None
        | _ => None
        end
      else None
  | _ => None
  end.

(** *** The connection *)

(** What the program and the libraries raise: [KeyError] by
    [_check_table]; [sqlite3.OperationalError] for a statement that does
    not parse or names a table or a column that does not exist;
    [sqlite3.ProgrammingError] on a closed connection or for a wrong
    number of parameters; [ManyStatements] for a text with more than one
    statement ([sqlite3.Warning], and [sqlite3.ProgrammingError] from
    Python 3.12 on); [json.JSONDecodeError] and [TypeError] by
    [json.loads]. *)
Inductive exn : Type :=
| KeyError
| OperationalError
| ProgrammingError
| ManyStatements
| JSONDecodeError
| TypeError.

Inductive outcome (A : Type) : Type :=
| Ok (a : A)
| Raise (e : exn).
Arguments Ok {A} a.
Arguments Raise {A} e.

(** A connection: whether it has been closed, the rows of each table (the
    text of the column [data], in the order of insertion, under the name
    of the table in lower case) and the statements it was asked to
    execute, oldest first. *)
Record conn : Type := mkConn {
  closed : bool;
  tables : gmap string (list string);
  trace : list string
}.

Definition with_table (c : conn) (name : string) (rows : list string) : conn :=
  mkConn (closed c) (<[lower name := rows]> (tables c)) (trace c).

Definition table (c : conn) (name : string) : option (list string) :=
  tables c !! lower name.

Definition row := list sqlvalue.

(** A statement that was parsed, on an open connection.  The statement
    is prepared (its table and its columns must exist), it must be the
    only one of the text, the parameters given must be as many as it waits
    for, and then it runs. *)
Definition run (st : stmt) (rest : string) (params : list string) (c : conn)
  : conn * outcome (list row) :=
  let single := blank (S (String.length rest)) rest in
  match st with
  | CreateTable name =>
      if negb single then (c, Raise ManyStatements)
      else
        match params, table c name with
        | _ :: _, _ => (c, Raise ProgrammingError)
        | [], Some _ => (c, Ok [])
        | [], None => (with_table c name [], Ok [])
        end
  | Insert name =>
      match table c name with
      | None => (c, Raise OperationalError)
      | Some rows =>
          if negb single then (c, Raise ManyStatements)
          else
            match params with
            | [p] => (with_table c name (rows ++ [p]), Ok [])
            | _ => (c, Raise ProgrammingError)
            end
      end
  | Select name cond =>
      match table c name with
      | None => (c, Raise OperationalError)
      | Some rows =>
          match cond with
          | None =>
              if negb single then (c, Raise ManyStatements)
              else
                match params with
                | [] => (c, Ok (map (fun r => [VText r]) rows))
                | _ => (c, Raise ProgrammingError)
                end
          | Some e =>
              if negb (resolves e) then (c, Raise OperationalError)
              else if negb single then (c, Raise ManyStatements)
              else if negb (params_of e =? length params)%nat
              then (c, Raise ProgrammingError)
              else
                match select_rows e rows with
                | Some l => (c, Ok (map (fun r => [VText r]) l))
                | None => (c, Raise OperationalError)
                end
          end
      end
  | SelectLit z =>
      if negb single then (c, Raise ManyStatements)
      else
        match params with
        | [] => (c, Ok [[VInt z]])
        | _ => (c, Raise ProgrammingError)
        end
  end.

(** [connection.execute(sql, params)] *)
Definition execute (sql : string) (params : list string) (c : conn)
  : conn * outcome (list row) :=
  let c1 := mkConn (closed c) (tables c) (trace c ++ [sql]) in
  if closed c then (c1, Raise ProgrammingError)
  else
    match tokenize sql with
    | None => (c1, Raise OperationalError)
    | Some (ts, rest) =>
        match parse_stmt ts with
        | None => (c1, Raise OperationalError)
        | Some st => run st rest params c1
        end
    end.

(** [connection.close()] *)
Definition close_connection (c : conn) : conn :=
  mkConn true (tables c) (trace c).

End Sql.

(** ** [DocumentDatabase] *)
Module Db.
Import Json Sql.

(** The allowed tables. *)
Definition TABLES : list (string * string) :=
  [("issues", "issues"); ("rules", "rules")].

(** The values a query maps its field paths to: [None], a [bool], an [int]
    or a [str]. *)
Inductive pyval : Type :=
| PNone
| PBool (b : bool)
| PInt (z : Z)
| PStr (s : string).

(** How an f-string writes a value. *)
Definition py_str (v : pyval) : string :=
  match v with
  | PNone => "None"
  | PBool true => "True"
  | PBool false => "False"
  | PInt z => dumps_int z
  | PStr s => s
  end.

(** A method of the class: it may change the connection, and it returns
    or raises. *)
Definition M (A : Type) : Type := conn -> conn * outcome A.

Definition ret {A : Type} (a : A) : M A := fun c => (c, Ok a).
Definition raise {A : Type} (e : exn) : M A := fun c => (c, Raise e).
Definition bind {A B : Type} (m : M A) (k : A -> M B) : M B :=
  fun c => match m c with
           | (c1, Ok a) => k a c1
           | (c1, Raise e) => (c1, Raise e)
           end.

Notation "m >>= k" := (bind m k) (at level 57, right associativity).
Notation "m >> k" := (bind m (fun _ => k)) (at level 57, right associativity).

(** [sqlite3.connect(f)]: [f] stands for the tables of the file as the
    engine sees them once the file is open, each under its name in lower
    case with the rows of its one column [data].  A file that cannot be
    opened, a table with other columns and a name kept with a capital
    letter have no counterpart here. *)
Definition connect (f : gmap string (list string)) : conn := mkConn false f [].

(** [__init__]: the tables of [TABLES] are created where they are missing. *)
Fixpoint create_tables (names : list string) : M unit :=
  match names with
  | [] => ret tt
  | table_name :: names' =>
      execute ("CREATE TABLE IF NOT EXISTS " +:+ table_name +:+ " (data TEXT);") [] >>
      create_tables names'
  end.

Definition __init__ (f : gmap string (list string)) : conn * outcome unit :=
  create_tables (map fst TABLES) (connect f).

Definition _check_table (table_name : string) : M unit :=
  if mem_string table_name (map fst TABLES) then ret tt else raise KeyError.

Definition _execute (query : string) : M (list row) := execute query [].

Definition add_row (table_name : string) (row : json) : M unit :=
  _check_table table_name >>
  execute ("INSERT INTO " +:+ table_name +:+ " VALUES (?);") [dumps row] >>
  ret tt.

Fixpoint add_rows (table_name : string) (rows : list json) : M unit :=
  match rows with
  | [] => ret tt
  | row :: rows' => add_row table_name row >> add_rows table_name rows'
  end.

Definition add_all (table_name : string) (rows : list json) : M unit :=
  _check_table table_name >>
  add_rows table_name rows.

(** [json.loads(r[0])] *)
Definition load_row (r : row) : outcome json :=
  match r with
  | VText t :: _ =>
      match loads t with
      | Some d => Ok d
      | None => Raise JSONDecodeError
      end
  | _ => Raise TypeError
  end.

(** [for r in rows: results.append(json.loads(r[0]))] *)
Fixpoint load_rows (results : list json) (rs : list row) : outcome (list json) :=
  match rs with
  | [] => Ok results
  | r :: rs' =>
      match load_row r with
      | Ok d => load_rows (results ++ [d]) rs'
      | Raise e => Raise e
      end
  end.

Definition get_all (table_name : string) : M (list json) :=
  _check_table table_name >>
  execute ("SELECT * FROM " +:+ table_name) [] >>= fun rs =>
  fun c => (c, load_rows [] rs).

Definition condition (kv : string * pyval) : string :=
  " json_extract(data, '$." +:+ fst kv +:+ "') = " +:+ py_str (snd kv).

Definition where_clause (query : list (string * pyval)) : string :=
  String.concat " AND " (map condition query).

Definition quote (v : pyval) : pyval :=
  match v with
  | PStr s => PStr ("'" +:+ s +:+ "'")
  | _ => v
  end.

(** The loop of [find] over the keys of [query]; [query] is the caller's
    dict, which the loop changes, and it is returned with the outcome. *)
Fixpoint find_loop (keys : list string) (table_name : string)
    (query : list (string * pyval)) (results : list json) (c : conn)
  : conn * list (string * pyval) * outcome (list json) :=
  match keys with
  | [] => (c, query, Ok results)
  | k :: keys' =>
      match dict_get k query with
      | None => (c, query, Ok results) (* no key of a dict is missing from it *)
      | Some v =>
          let query1 :=
            match v with
            | PStr _ => dict_set k (quote v) query
            | _ => query
            end in
          let q := where_clause query1 in
          match execute ("SELECT * FROM " +:+ table_name +:+ " WHERE " +:+ q) [] c with
          | (c1, Raise e) => (c1, query1, Raise e)
          | (c1, Ok rs) =>
              match load_rows results rs with
              | Raise e => (c1, query1, Raise e)
              | Ok results1 => find_loop keys' table_name query1 results1 c1
              end
          end
      end
  end.

Definition find (table_name : string) (query : list (string * pyval)) (c : conn)
  : conn * list (string * pyval) * outcome (list json) :=
  find_loop (map fst query) table_name query [] c.

Definition close : M unit :=
  fun c =>
    match _execute "SELECT 1" c with
    | (c1, Ok _) => (close_connection c1, Ok tt)
    | (c1, Raise ProgrammingError) => (c1, Ok tt)
    | (c1, Raise e) => (c1, Raise e)
    end.

(** The entry of a query after the loop has visited it. *)
Definition quote_entry (kv : string * pyval) : string * pyval :=
  (fst kv, quote (snd kv)).

(** A row that [json.loads] accepts. *)
Definition loadable (r : string) : bool :=
  match loads r with
  | Some _ => true
  | None => false
  end.

(** No row of the table is corrupt. *)
Definition intact (c : conn) (table_name : string) : bool :=
  match tables c !! table_name with
  | Some rows => forallb loadable rows
  | None => true
  end.

End Db.

(** ** The documents and the stores of the examples *)
Module Examples.
Import Json Sql Db.

Definition doc_a : json := JDict [("name", JStr "a"); ("age", JInt 5)].
Definition doc_b : json := JDict [("name", JStr "b"); ("age", JInt 5)].
Definition doc_city : json := JDict [("address", JDict [("city", JStr "X")])].
Definition doc_quote : json := JDict [("name", JStr "it's")].

(** A new database file, opened. *)
Definition fresh : conn := fst (__init__ ∅).

(** The two documents of the query example, in the table [issues]. *)
Definition stocked : conn := fst (add_all "issues" [doc_a; doc_b] fresh).





End Examples.

(** ** The connections the program can reach from a new database file *)
Module Reach.
Import Json Sql Db Examples.

Inductive reachable : conn -> Prop :=
| reach_open : reachable fresh
| reach_add_row (table_name : string) (d : json) (c : conn) :
    json_wf d = true -> reachable c -> reachable (fst (add_row table_name d c))
| reach_get_all (table_name : string) (c : conn) :
    reachable c -> reachable (fst (get_all table_name c))
| reach_find (table_name : string) (query : list (string * pyval)) (c : conn) :
    reachable c -> reachable (fst (fst (find table_name query c)))
| reach_close (c : conn) :
    reachable c -> reachable (fst (close c)).

End Reach.

(** ** Names for the statements the methods send *)
Module Statements.
Import Json Sql Db.

Definition registered (table_name : string) : bool :=
  mem_string table_name (map fst TABLES).

Definition insert_stmt (table_name : string) : string :=
  "INSERT INTO " +:+ table_name +:+ " VALUES (?);".

Definition select_stmt (table_name : string) : string :=
  "SELECT * FROM " +:+ table_name.

Definition select_where (table_name : string) (query : list (string * pyval))
  : string :=
  "SELECT * FROM " +:+ table_name +:+ " WHERE " +:+ where_clause query.

Definition is_str (v : pyval) : bool :=
  match v with
  | PStr _ => true
  | _ => false
  end.

(** A document with two numbers. *)
Definition doc_xy : json := JDict [("x", JInt 1); ("y", JInt 2)].

(** A character that can start a JSON value as [json.loads] reads it: a
    double quote, a bracket, a brace, a minus sign, a digit, or the first
    letter of true, false, null, NaN and Infinity. *)
Definition can_start (c : ascii) : bool :=
  let n := N_of_ascii c in
  ((n =? 34) || (n =? 91) || (n =? 123) || (n =? 45)
   || ((48 <=? n) && (n <=? 57))
   || (n =? 116) || (n =? 102) || (n =? 110) || (n =? 78) || (n =? 73))%N.

(** A row that is no JSON text from its first character on: nothing but
    white space, or a first character that starts no value. *)
Definition bad_start (r : string) : bool :=
  match skip_ws r with
  | "" => true
  | String c _ => negb (can_start c)
  end.

(** A database file whose table [issues] holds a row that is no JSON text
    after a row that is one, opened. *)
Definition spoiled : conn :=
  fst (__init__ {["issues" := [dumps doc_xy; "<html>"]]}).

(** The name of every table of a file is in lower case, as the
    connection keeps the names. *)
Definition lower_names (f : gmap string (list string)) : bool :=
  forallb (fun kv => String.eqb (lower (fst kv)) (fst kv)) (map_to_list f).

(** The connection of the class after [Examples.stocked] with the
    document [doc_xy] added to the table [rules]. *)
Definition stocked_xy : conn := fst (add_row "rules" doc_xy Examples.stocked).

End Statements.

(** * Properties *)

Import Json Sql Db Examples Reach Statements.

#[local] Arguments String.append !_ _ : simpl nomatch.

(** ** Text *)

Section Text.

Lemma append_assoc (a b c : string) : (a +:+ b) +:+ c = a +:+ (b +:+ c).
Proof. induction a as [|x a IH]; cbn; [reflexivity | f_equal; exact IH]. Qed.

Lemma append_nil_r (a : string) : a +:+ "" = a.
Proof. induction a as [|x a IH]; cbn; [reflexivity | f_equal; exact IH]. Qed.

Lemma length_append (a b : string) :
  String.length (a +:+ b) = String.length a + String.length b.
Proof. induction a as [|x a IH]; cbn; [reflexivity | f_equal; exact IH]. Qed.

End Text.

(** ** The codec: [loads] undoes [dumps] *)

Section Codec.

(** Induction on a document, with the hypothesis for every element of a
    list and every value of a dict. *)
Lemma json_induction (P : json -> Prop) :
  P JNull ->
  (forall b, P (JBool b)) ->
  (forall z, P (JInt z)) ->
  (forall s, P (JStr s)) ->
  (forall l, Forall P l -> P (JList l)) ->
  (forall m, Forall (fun kv => P (snd kv)) m -> P (JDict m)) ->
  (forall l, Forall P l -> P (JTuple l)) ->
  forall v, P v.
Proof.
  intros Hnull Hbool Hint Hstr Hlist Hdict Htuple.
  fix IH 1.
  intros [ | b | z | s | l | m | l ].
  - exact Hnull.
  - apply Hbool.
  - apply Hint.
  - apply Hstr.
  - apply Hlist. induction l as [|x l IHl]; constructor; [apply IH | exact IHl].
  - apply Hdict. induction m as [|[k x] m IHm]; constructor; [apply IH | exact IHm].
  - apply Htuple. induction l as [|x l IHl]; constructor; [apply IH | exact IHl].
Qed.

Lemma scan_escape_char (c : ascii) (t : string) :
  scan_string (escape_char c +:+ t) = push_char c (scan_string t).
Proof.
  destruct c as [[] [] [] [] [] [] [] []]; reflexivity.
Qed.

Lemma scan_escape (s rest : string) :
  scan_string (escape s +:+ String dquote rest) = Some (s, rest).
Proof.
  induction s as [|c s IH]; simpl.
  - reflexivity.
  - rewrite append_assoc, scan_escape_char, IH. reflexivity.
Qed.

Lemma scan_digits_uint (d : uint) (rest : string) :
  delim rest = true ->
  scan_digits (NilEmpty.string_of_uint d +:+ rest) = (d, rest).
Proof.
  intros Hrest.
  induction d as [|d IH|d IH|d IH|d IH|d IH|d IH|d IH|d IH|d IH|d IH];
    simpl; try (rewrite IH; reflexivity).
  destruct rest as [|c r]; [reflexivity|].
  simpl in *. destruct (digit_of_char c); [discriminate | reflexivity].
Qed.

Lemma to_uint_normal (p : positive) : unorm (Pos.to_uint p) = Pos.to_uint p.
Proof.
  rewrite <- (DecimalPos.Unsigned.to_of (Pos.to_uint p)).
  now rewrite DecimalPos.Unsigned.of_to.
Qed.

Lemma unorm_leading_zero (d : uint) : unorm (D0 d) = D0 d -> d = Nil.
Proof.
  unfold unorm; simpl.
  destruct (nzhead d) eqn:E; intros H; try discriminate.
  - now injection H.
  - exfalso. exact (nzhead_nonzero _ _ E).
Qed.

Lemma json_int_ok_to_uint (p : positive) : json_int_ok (Pos.to_uint p) = true.
Proof.
  pose proof (to_uint_normal p) as Hn.
  pose proof (DecimalPos.Unsigned.to_uint_nonnil p) as Hnil.
  destruct (Pos.to_uint p) as [|d|d|d|d|d|d|d|d|d|d]; try reflexivity.
  - contradiction.
  - now rewrite (unorm_leading_zero d Hn).
Qed.

Lemma delim_float (rest : string) : delim rest = true -> float_mark rest = false.
Proof.
  destruct rest as [|c r]; [reflexivity|].
  unfold delim. destruct (digit_of_char c); [discriminate|].
  now destruct (float_mark (String c r)).
Qed.

Lemma string_of_uint_head (d : uint) (rest : string) :
  d <> Nil ->
  exists c r, NilEmpty.string_of_uint d +:+ rest = String c r /\ is_digit c = true.
Proof.
  destruct d; intros H; try contradiction; simpl; eauto.
Qed.

Lemma digit_not_minus (c : ascii) : is_digit c = true -> (N_of_ascii c =? 45)%N = false.
Proof. destruct c as [[] [] [] [] [] [] [] []]; vm_compute; congruence. Qed.

Lemma parse_number_uint (d : uint) (rest : string) :
  json_int_ok d = true -> delim rest = true ->
  parse_number (NilEmpty.string_of_uint d +:+ rest) = Some (JInt (Z.of_int (Pos d)), rest).
Proof.
  intros Hd Hrest.
  pose proof (scan_digits_uint d rest Hrest) as Hs.
  destruct (string_of_uint_head d rest) as (c & r & E & Hc).
  { destruct d; simpl in Hd; congruence. }
  unfold parse_number. rewrite E in *.
  rewrite (digit_not_minus c Hc), Hs, Hd, (delim_float rest Hrest).
  reflexivity.
Qed.

Lemma parse_number_neg (d : uint) (rest : string) :
  json_int_ok d = true -> delim rest = true ->
  parse_number (String "-" (NilEmpty.string_of_uint d +:+ rest))
  = Some (JInt (Z.of_int (Neg d)), rest).
Proof.
  intros Hd Hrest. unfold parse_number.
  change ((N_of_ascii "-" =? 45)%N) with true. cbv iota.
  rewrite (scan_digits_uint d rest Hrest), Hd, (delim_float rest Hrest).
  reflexivity.
Qed.

Lemma parse_number_dumps_int (z : Z) (rest : string) :
  delim rest = true ->
  parse_number (dumps_int z +:+ rest) = Some (JInt z, rest).
Proof.
  intros Hrest. unfold dumps_int.
  rewrite <- (DecimalZ.of_to z) at 2.
  destruct z as [|p|p]; simpl Z.to_int; unfold NilEmpty.string_of_int.
  - now apply parse_number_uint.
  - apply parse_number_uint; [apply json_int_ok_to_uint | assumption].
  - apply parse_number_neg; [apply json_int_ok_to_uint | assumption].
Qed.

(** A text that starts as a number is read by [parse_number]. *)
Lemma parse_value_number (f : nat) (c : ascii) (r : string) :
  is_digit c || Ascii.eqb c "-" = true ->
  parse_value (S f) (String c r) = parse_number (String c r).
Proof.
  destruct c as [[] [] [] [] [] [] [] []]; try discriminate; intros _; reflexivity.
Qed.

Lemma dumps_int_head (z : Z) (rest : string) :
  exists c r, dumps_int z +:+ rest = String c r /\ is_digit c || Ascii.eqb c "-" = true.
Proof.
  unfold dumps_int.
  destruct z as [|p|p]; simpl Z.to_int; unfold NilEmpty.string_of_int.
  - simpl. eauto.
  - destruct (string_of_uint_head (Pos.to_uint p) rest) as (c & r & E & Hc).
    { apply DecimalPos.Unsigned.to_uint_nonnil. }
    exists c, r. now rewrite E, Hc.
  - simpl. eauto.
Qed.

Lemma parse_value_skip (f : nat) (t : string) :
  parse_value f (String " " t) = parse_value f t.
Proof. destruct f; reflexivity. Qed.

Lemma parse_items_skip (pv : string -> option (json * string)) (n : nat) (t : string) :
  (forall t', pv (String " " t') = pv t') ->
  parse_items pv n (String " " t) = parse_items pv n t.
Proof. intros Hpv. destruct n; simpl; [reflexivity | now rewrite Hpv]. Qed.

Lemma parse_members_skip (pv : string -> option (json * string)) (n : nat) (t : string) :
  parse_members pv n (String " " t) = parse_members pv n t.
Proof. destruct n; reflexivity. Qed.

(** The first character of the text of a document is no white space and no
    closing bracket. *)
Lemma dumps_head (v : json) (rest : string) :
  exists c r, dumps v +:+ rest = String c r
              /\ is_ws c = false /\ (N_of_ascii c =? 93)%N = false.
Proof.
  destruct v as [ | [|] | z | s | l | m | l ]; simpl; eauto.
  destruct (dumps_int_head z rest) as (c & r & E & Hc).
  exists c, r. split; [exact E|].
  revert Hc. clear. destruct c as [[] [] [] [] [] [] [] []]; vm_compute; auto; discriminate.
Qed.

Lemma dict_set_fresh {A : Type} (k : string) (v : A) (d : list (string * A)) :
  mem_string k (map fst d) = false -> dict_set k v d = d ++ [(k, v)].
Proof.
  induction d as [|[k' v'] d IH]; simpl; [reflexivity|].
  destruct (String.eqb k' k); simpl; [discriminate|].
  intros H. now rewrite IH.
Qed.

Lemma mem_string_app (k : string) (a b : list string) :
  mem_string k (a ++ b) = mem_string k a || mem_string k b.
Proof.
  induction a as [|x a IH]; simpl; [reflexivity|].
  rewrite IH. now rewrite orb_assoc.
Qed.

Lemma dict_of_pairs_acc {A : Type} (m acc : list (string * A)) :
  nodup_keys (map fst (acc ++ m)) = true ->
  fold_left (fun d kv => dict_set (fst kv) (snd kv) d) m acc = acc ++ m.
Proof.
  revert acc. induction m as [|[k v] m IH]; intros acc H; simpl.
  - now rewrite app_nil_r.
  - rewrite dict_set_fresh.
    + rewrite IH; rewrite <- app_assoc; [reflexivity | exact H].
    + clear IH. induction acc as [|[k' v'] acc IHa]; simpl in *; [reflexivity|].
      apply andb_true_iff in H as [H1 H2].
      rewrite map_app, mem_string_app in H1. simpl in H1.
      destruct (String.eqb k' k) eqn:E.
      * apply String.eqb_eq in E. subst k'. rewrite String.eqb_refl in H1.
        rewrite orb_true_r in H1. discriminate.
      * simpl. now apply IHa.
Qed.

Lemma dict_of_pairs_nodup {A : Type} (m : list (string * A)) :
  nodup_keys (map fst m) = true -> dict_of_pairs m = m.
Proof. intros H. unfold dict_of_pairs. now rewrite dict_of_pairs_acc. Qed.

Lemma parse_items_dumps (f : nat) (l : list json) :
  l <> [] -> Forall (reads f) l ->
  forall n rest, length l <= n ->
    parse_items (parse_value f) n
      (String.concat ", " (map dumps l) +:+ String "]" rest) = Some (l, rest).
Proof.
  intros Hne Hall. induction Hall as [|x l Hx Hall IH]; [contradiction|].
  intros n rest Hn. destruct n as [|n]; [simpl in Hn; lia|].
  destruct l as [|y l'].
  - simpl. rewrite Hx by reflexivity. reflexivity.
  - change (String.concat ", " (map dumps (x :: y :: l')))
      with (dumps x +:+ ", " +:+ String.concat ", " (map dumps (y :: l'))).
    rewrite !append_assoc. simpl parse_items.
    rewrite Hx by reflexivity. simpl.
    rewrite parse_items_skip by (intros; apply parse_value_skip).
    rewrite IH; [reflexivity | discriminate | simpl in *; lia].
Qed.

Lemma dumps_dict_members (m : list (string * json)) :
  dumps (JDict m) = "{" +:+ String.concat ", " (map dumps_member m) +:+ "}".
Proof. reflexivity. Qed.

Lemma parse_members_dumps (f : nat) (m : list (string * json)) :
  m <> [] -> Forall (fun kv => reads f (snd kv)) m ->
  forall n rest, length m <= n ->
    parse_members (parse_value f) n
      (String.concat ", " (map dumps_member m) +:+ String "}" rest) = Some (m, rest).
Proof.
  intros Hne Hall. induction Hall as [|[k x] m Hx Hall IH]; [contradiction|].
  intros n rest Hn. destruct n as [|n]; [simpl in Hn; lia|].
  simpl in Hx.
  destruct m as [|y m'].
  - simpl. unfold dumps_member, dumps_str, quoted. simpl.
    rewrite !append_assoc. simpl. rewrite scan_escape. simpl.
    rewrite parse_value_skip, Hx by reflexivity. reflexivity.
  - change (String.concat ", " (map dumps_member ((k, x) :: y :: m')))
      with (dumps_member (k, x) +:+ ", " +:+ String.concat ", " (map dumps_member (y :: m'))).
    set (C := String.concat ", " (map dumps_member (y :: m'))) in *.
    unfold dumps_member, dumps_str, quoted. simpl fst; simpl snd.
    rewrite !append_assoc. simpl. rewrite !append_assoc. simpl.
    rewrite scan_escape. simpl.
    rewrite parse_value_skip, Hx by reflexivity. simpl.
    rewrite parse_members_skip.
    rewrite IH; [reflexivity | discriminate | simpl in *; lia].
Qed.

Lemma jsize_pos (v : json) : 1 <= jsize v.
Proof. destruct v; simpl; lia. Qed.

Lemma length_le_sum {A : Type} (g : A -> nat) (l : list A) :
  (forall x, 1 <= g x) -> length l <= list_sum (map g l).
Proof.
  intros Hg. induction l as [|x l IH]; simpl; [lia|].
  specialize (Hg x). lia.
Qed.

Lemma reads_all {A : Type} (g : A -> json) (f : nat) (l : list A) :
  Forall (fun a => json_wf (g a) = true ->
                   forall fuel, jsize (g a) <= fuel -> reads fuel (g a)) l ->
  forallb (fun a => json_wf (g a)) l = true ->
  list_sum (map (fun a => jsize (g a)) l) <= f ->
  Forall (fun a => reads f (g a)) l.
Proof.
  induction 1 as [|a l Ha Hall IH]; simpl; intros Hwf Hsum; constructor.
  - apply andb_true_iff in Hwf as [Hwf _]. apply Ha; [exact Hwf | lia].
  - apply andb_true_iff in Hwf as [_ Hwf]. apply IH; [exact Hwf | lia].
Qed.

Lemma parse_value_list (f : nat) (c : ascii) (r : string) :
  is_ws c = false -> (N_of_ascii c =? 93)%N = false ->
  parse_value (S f) (String "[" (String c r))
  = match parse_items (parse_value f) f (String c r) with
    | Some (vs, r') => Some (JList vs, r')
    | None => None
    end.
Proof.
  intros Hws Hc.
  change (parse_value (S f) (String "[" (String c r)))
    with (match skip_ws (String c r) with
          | String c' r' =>
              if (N_of_ascii c' =? 93)%N then Some (JList [], r')
              else
                match parse_items (parse_value f) f (String c r) with
                | Some (vs, r'') => Some (JList vs, r'')
                | None => None
                end
          | "" => None
          end).
  simpl skip_ws. rewrite Hws, Hc. reflexivity.
Qed.

Lemma parse_value_dict (f : nat) (r : string) :
  parse_value (S f) (String "{" (String dquote r))
  = match parse_members (parse_value f) f (String dquote r) with
    | Some (kvs, r') => Some (JDict (dict_of_pairs kvs), r')
    | None => None
    end.
Proof. reflexivity. Qed.

Lemma concat_head (sep a t : string) (l : list string) :
  exists r, String.concat sep (a :: l) +:+ t = a +:+ r.
Proof.
  destruct l as [|b l]; simpl.
  - now exists t.
  - rewrite append_assoc. eauto.
Qed.

Lemma parse_dumps (v : json) :
  json_wf v = true -> forall fuel, jsize v <= fuel -> reads fuel v.
Proof.
  induction v as [ | b | z | s | l IH | m IH | l IH ] using json_induction;
    intros Hwf fuel Hfuel rest Hrest;
    (destruct fuel as [|f]; [exfalso; simpl in Hfuel; lia|]).
  - reflexivity.
  - destruct b; reflexivity.
  - simpl dumps.
    destruct (dumps_int_head z rest) as (c & r & E & Hc).
    pose proof (parse_number_dumps_int z rest Hrest) as Hn.
    rewrite E in *. now rewrite parse_value_number.
  - simpl. unfold dumps_str, quoted. simpl. rewrite append_assoc. simpl.
    now rewrite scan_escape.
  - simpl in Hfuel, Hwf. apply le_S_n in Hfuel.
    destruct l as [|x l'] eqn:El; [reflexivity|]. rewrite <- El in *.
    assert (Hne : l <> []) by (rewrite El; discriminate).
    pose proof (reads_all (fun x => x) f l IH Hwf Hfuel) as Hall.
    pose proof (parse_items_dumps f l Hne Hall f rest) as Hitems.
    assert (Etext : dumps (JList l) +:+ rest
                    = String "[" (String.concat ", " (map dumps l) +:+ String "]" rest)).
    { simpl. now rewrite append_assoc. }
    rewrite Etext.
    destruct (concat_head ", " (dumps x) (String "]" rest) (map dumps l')) as (r0 & E0).
    destruct (dumps_head x r0) as (c & r & E & Hws & Hc).
    rewrite El in Hitems |- *. simpl map in Hitems |- *.
    rewrite E0, E in Hitems |- *.
    rewrite parse_value_list by assumption.
    rewrite Hitems; [reflexivity|].
    rewrite <- El. etransitivity; [apply (length_le_sum jsize), jsize_pos | exact Hfuel].
  - simpl in Hfuel, Hwf. apply le_S_n in Hfuel.
    apply andb_true_iff in Hwf as [Hnd Hwf].
    destruct m as [|[k x] m'] eqn:Em; [reflexivity|]. rewrite <- Em in *.
    assert (Hne : m <> []) by (rewrite Em; discriminate).
    pose proof (reads_all snd f m IH Hwf Hfuel) as Hall.
    pose proof (parse_members_dumps f m Hne Hall f rest) as Hmem.
    assert (Etext : dumps (JDict m) +:+ rest
                    = String "{" (String.concat ", " (map dumps_member m) +:+ String "}" rest)).
    { rewrite dumps_dict_members. simpl. now rewrite append_assoc. }
    rewrite Etext.
    destruct (concat_head ", " (dumps_member (k, x)) (String "}" rest) (map dumps_member m'))
      as (r0 & E0).
    rewrite Em in Hmem |- *. simpl map in Hmem |- *.
    rewrite E0 in Hmem |- *.
    unfold dumps_member, dumps_str, quoted in Hmem |- *.
    simpl String.append in Hmem |- *.
    rewrite parse_value_dict, Hmem.
    + rewrite <- Em. now rewrite dict_of_pairs_nodup.
    + rewrite <- Em. etransitivity; [apply (length_le_sum (fun kv => jsize (snd kv))) | exact Hfuel].
      intros; apply jsize_pos.
  - discriminate Hwf.
Qed.

Lemma length_concat_sum {A : Type} (g : A -> nat) (t : A -> string) (sep : string)
    (l : list A) :
  Forall (fun a => g a <= String.length (t a)) l ->
  list_sum (map g l) <= String.length (String.concat sep (map t l)).
Proof.
  induction 1 as [|a l Ha Hall IH]; simpl; [lia|].
  destruct l as [|b l']; simpl in *.
  - lia.
  - rewrite !length_append. lia.
Qed.

Lemma jsize_le_length (v : json) : jsize v <= String.length (dumps v).
Proof.
  induction v as [ | b | z | s | l IH | m IH | l IH ] using json_induction.
  - simpl; lia.
  - destruct b; simpl; lia.
  - destruct (dumps_int_head z "") as (c & r & E & _).
    rewrite append_nil_r in E. simpl dumps. rewrite E. simpl; lia.
  - simpl; lia.
  - pose proof (length_concat_sum jsize dumps ", " l IH) as H.
    simpl. rewrite length_append. simpl. lia.
  - rewrite dumps_dict_members.
    assert (Forall (fun kv => jsize (snd kv) <= String.length (dumps_member kv)) m) as IH'.
    { eapply List.Forall_impl; [|exact IH]. intros [k x] Hx. unfold dumps_member.
      rewrite !length_append. simpl in *. lia. }
    pose proof (length_concat_sum (fun kv => jsize (snd kv)) dumps_member ", " m IH') as H.
    simpl. rewrite length_append. simpl. lia.
  - pose proof (length_concat_sum jsize dumps ", " l IH) as H.
    simpl. rewrite length_append. simpl. lia.
Qed.

Lemma loads_dumps (v : json) : json_wf v = true -> loads (dumps v) = Some v.
Proof.
  intros Hwf. unfold loads.
  pose proof (parse_dumps v Hwf (S (String.length (dumps v)))) as H.
  unfold reads in H. specialize (H ltac:(pose proof (jsize_le_length v); lia) "" eq_refl).
  rewrite append_nil_r in H. now rewrite H.
Qed.

End Codec.

(** ** The engine on the statements of the program *)

(** Evaluation of the closed calls of the tokenizer and the parsers in a
    goal. *)
Ltac eval_call f :=
  match goal with
  | |- context [f ?a] =>
      let v := eval vm_compute in (f a) in change (f a) with v
  end.

Ltac eval_call2 f :=
  match goal with
  | |- context [f ?a ?b] =>
      let v := eval vm_compute in (f a b) in change (f a b) with v
  end.

Ltac run_statement :=
  unfold execute; eval_call tokenize; cbv beta iota; eval_call parse_stmt;
  cbv beta iota; unfold run, table, with_table; repeat eval_call lower;
  repeat eval_call2 blank; repeat eval_call resolves;
  cbv beta iota; simpl negb; cbv beta iota;
  simpl closed; simpl tables; simpl trace.

Section Engine.

Lemma registered_cases (table_name : string) :
  mem_string table_name (map fst TABLES) = true ->
  table_name = "issues" \/ table_name = "rules".
Proof.
  simpl. intros H.
  apply orb_true_iff in H as [H|H].
  - left. symmetry. now apply String.eqb_eq.
  - rewrite orb_false_r in H. right. symmetry. now apply String.eqb_eq.
Qed.

Lemma execute_insert (table_name p : string) (c : conn) :
  mem_string table_name (map fst TABLES) = true ->
  closed c = false ->
  execute ("INSERT INTO " +:+ table_name +:+ " VALUES (?);") [p] c
  = match tables c !! table_name with
    | Some rows =>
        (mkConn false (<[table_name := rows ++ [p]]> (tables c))
           (trace c ++ ["INSERT INTO " +:+ table_name +:+ " VALUES (?);"]), Ok [])
    | None =>
        (mkConn false (tables c)
           (trace c ++ ["INSERT INTO " +:+ table_name +:+ " VALUES (?);"]),
         Raise OperationalError)
    end.
Proof.
  intros Hreg Hopen.
  destruct (registered_cases _ Hreg); subst table_name;
    run_statement; rewrite Hopen.
  - reflexivity.
  - reflexivity.
Qed.

Lemma execute_select_all (table_name : string) (c : conn) :
  mem_string table_name (map fst TABLES) = true ->
  closed c = false ->
  execute ("SELECT * FROM " +:+ table_name) [] c
  = (mkConn false (tables c) (trace c ++ ["SELECT * FROM " +:+ table_name]),
     match tables c !! table_name with
     | Some rows => Ok (map (fun r => [VText r]) rows)
     | None => Raise OperationalError
     end).
Proof.
  intros Hreg Hopen.
  destruct (registered_cases _ Hreg); subst table_name;
    run_statement; rewrite Hopen; destruct (tables c !! _); reflexivity.
Qed.

Lemma execute_closed (sql : string) (params : list string) (c : conn) :
  closed c = true ->
  execute sql params c
  = (mkConn true (tables c) (trace c ++ [sql]), Raise ProgrammingError).
Proof. intros H. unfold execute. now rewrite H. Qed.

Lemma execute_select_1 (c : conn) :
  closed c = false ->
  execute "SELECT 1" [] c
  = (mkConn false (tables c) (trace c ++ ["SELECT 1"]), Ok [[VInt 1]]).
Proof. intros Hopen. run_statement. now rewrite Hopen. Qed.

End Engine.

(** ** The methods of [DocumentDatabase] *)

Section Methods.

Lemma check_table_unregistered (table_name : string) (c : conn) :
  mem_string table_name (map fst TABLES) = false ->
  _check_table table_name c = (c, Raise KeyError).
Proof. intros H. unfold _check_table. now rewrite H. Qed.

Lemma check_table_registered (table_name : string) (c : conn) :
  mem_string table_name (map fst TABLES) = true ->
  _check_table table_name c = (c, Ok tt).
Proof. intros H. unfold _check_table. now rewrite H. Qed.

(** What [add_row] does, case by case. *)
Lemma add_row_cases (table_name : string) (row : json) (c : conn) :
  add_row table_name row c
  = if mem_string table_name (map fst TABLES) then
      let sql := "INSERT INTO " +:+ table_name +:+ " VALUES (?);" in
      if closed c then
        (mkConn true (tables c) (trace c ++ [sql]), Raise ProgrammingError)
      else
        match tables c !! table_name with
        | Some rows =>
            (mkConn false (<[table_name := rows ++ [dumps row]]> (tables c))
               (trace c ++ [sql]), Ok tt)
        | None =>
            (mkConn false (tables c) (trace c ++ [sql]), Raise OperationalError)
        end
    else (c, Raise KeyError).
Proof.
  unfold add_row, bind.
  destruct (mem_string table_name (map fst TABLES)) eqn:Hreg.
  - rewrite check_table_registered by assumption.
    destruct (closed c) eqn:Hc.
    + now rewrite execute_closed.
    + rewrite execute_insert by assumption.
      now destruct (tables c !! table_name).
  - now rewrite check_table_unregistered.
Qed.

(** What [get_all] does, case by case. *)
Lemma get_all_cases (table_name : string) (c : conn) :
  get_all table_name c
  = if mem_string table_name (map fst TABLES) then
      let sql := "SELECT * FROM " +:+ table_name in
      if closed c then
        (mkConn true (tables c) (trace c ++ [sql]), Raise ProgrammingError)
      else
        (mkConn false (tables c) (trace c ++ [sql]),
         match tables c !! table_name with
         | Some rows => load_rows [] (map (fun r => [VText r]) rows)
         | None => Raise OperationalError
         end)
    else (c, Raise KeyError).
Proof.
  unfold get_all, bind.
  destruct (mem_string table_name (map fst TABLES)) eqn:Hreg.
  - rewrite check_table_registered by assumption.
    destruct (closed c) eqn:Hc.
    + now rewrite execute_closed.
    + rewrite execute_select_all by assumption.
      now destruct (tables c !! table_name).
  - now rewrite check_table_unregistered.
Qed.

Lemma load_rows_app (acc : list json) (rs1 rs2 : list row) :
  load_rows acc (rs1 ++ rs2)
  = match load_rows acc rs1 with
    | Ok a => load_rows a rs2
    | Raise e => Raise e
    end.
Proof.
  revert acc. induction rs1 as [|r rs1 IH]; intros acc; simpl; [reflexivity|].
  destruct (load_row r); [apply IH | reflexivity].
Qed.

Lemma load_rows_loadable (acc : list json) (rows : list string) :
  forallb loadable rows = true ->
  exists docs, load_rows acc (map (fun r => [VText r]) rows) = Ok (acc ++ docs).
Proof.
  revert acc. induction rows as [|r rows IH]; intros acc H; simpl.
  - exists []. now rewrite app_nil_r.
  - apply andb_true_iff in H as [Hr H]. unfold loadable in Hr.
    destruct (loads r) as [d|]; [|discriminate].
    destruct (IH (acc ++ [d]) H) as (docs & E).
    exists (d :: docs). rewrite E. now rewrite <- app_assoc.
Qed.

(** What [close] does, case by case. *)
Lemma close_cases (c : conn) :
  close c = (mkConn true (tables c) (trace c ++ ["SELECT 1"]), Ok tt).
Proof.
  unfold close, _execute. destruct (closed c) eqn:Hc.
  - now rewrite execute_closed.
  - now rewrite execute_select_1.
Qed.

Lemma intact_add_row (table_name other : string) (d : json) (c : conn) :
  json_wf d = true ->
  intact c other = true ->
  intact (fst (add_row table_name d c)) other = true.
Proof.
  intros Hwf H. rewrite add_row_cases.
  destruct (mem_string table_name (map fst TABLES)); [|exact H].
  simpl. destruct (closed c); [exact H|].
  destruct (tables c !! table_name) as [rows|] eqn:Hrows; [|exact H].
  unfold intact in *. simpl.
  destruct (decide (table_name = other)) as [<-|Hne].
  - rewrite lookup_insert_eq. rewrite Hrows in H.
    rewrite forallb_app, H. simpl. unfold loadable.
    now rewrite (loads_dumps d Hwf).
  - now rewrite lookup_insert_ne.
Qed.

Lemma intact_fresh (table_name : string) : intact fresh table_name = true.
Proof.
  unfold intact.
  change (tables fresh)
    with (<["rules" := []]> (<["issues" := []]> (∅ : gmap string (list string)))).
  destruct (decide ("rules" = table_name)) as [<-|Hr].
  - now rewrite lookup_insert_eq.
  - rewrite lookup_insert_ne by exact Hr.
    destruct (decide ("issues" = table_name)) as [<-|Hi].
    + now rewrite lookup_insert_eq.
    + rewrite lookup_insert_ne by exact Hi. now rewrite lookup_empty.
Qed.

(** A statement that starts with SELECT and a star. *)
Lemma lex_select (f : nat) (x : string) :
  lex (S (S (S (S (S (S f)))))) ("SELECT * FROM " +:+ x)
  = cons_token (TId "SELECT") (cons_token TStar (cons_token (TId "FROM") (lex f x))).
Proof. reflexivity. Qed.

Lemma parse_stmt_select (ts : list token) (st : stmt) :
  parse_stmt (TId "SELECT" :: TStar :: ts) = Some st ->
  exists name cond, st = Select name cond.
Proof.
  simpl.
  repeat match goal with
         | |- context [match ?x with _ => _ end] => destruct x
         end;
    try discriminate; intros [= <-]; eauto.
Qed.

Lemma run_select (name : string) (cond : option expr) (rest : string)
    (params : list string) (c : conn) :
  fst (run (Select name cond) rest params c) = c.
Proof.
  unfold run.
  repeat match goal with
         | |- context [match ?x with _ => _ end] => destruct x
         end; reflexivity.
Qed.

(** A statement that starts with SELECT and a star changes no table and
    leaves the connection open or closed as it was. *)
Lemma execute_select_keeps (x : string) (params : list string) (c : conn) :
  tables (fst (execute ("SELECT * FROM " +:+ x) params c)) = tables c
  /\ closed (fst (execute ("SELECT * FROM " +:+ x) params c)) = closed c.
Proof.
  unfold execute. destruct (closed c) eqn:Hc; [simpl; auto|].
  unfold tokenize.
  change (S (String.length ("SELECT * FROM " +:+ x)))
    with (S (S (S (S (S (S (9 + String.length x))))))).
  rewrite lex_select.
  destruct (lex _ x) as [[ts rest]|]; unfold cons_token; cbv beta iota;
    [|simpl; auto].
  destruct (parse_stmt _) as [st|] eqn:E; [|simpl; auto].
  destruct (parse_stmt_select _ _ E) as (name & cond & ->).
  rewrite run_select. simpl. auto.
Qed.

Lemma find_loop_keeps (keys : list string) (table_name : string)
    (query : list (string * pyval)) (results : list json) (c : conn) :
  tables (fst (fst (find_loop keys table_name query results c))) = tables c
  /\ closed (fst (fst (find_loop keys table_name query results c))) = closed c.
Proof.
  revert query results c.
  induction keys as [|k keys IH]; intros query results c; cbn [find_loop];
    [simpl; auto|].
  destruct (dict_get k query) as [v|]; [|simpl; auto].
  match goal with
  | |- context [execute ("SELECT * FROM " +:+ ?x) [] c] =>
      pose proof (execute_select_keeps x [] c) as [Ht Hc];
      destruct (execute ("SELECT * FROM " +:+ x) [] c) as [c1 [rs|e]]
  end; simpl in Ht, Hc.
  - destruct (load_rows results rs) as [results1|e]; simpl; [|auto].
    destruct (IH (match v with PStr _ => dict_set k (quote v) query | _ => query end)
                results1 c1) as [Ht1 Hc1].
    rewrite Ht1, Hc1. auto.
  - simpl. auto.
Qed.

(** [find] changes no table, whatever the name and the query it is given. *)
Lemma find_keeps_tables (table_name : string) (query : list (string * pyval))
    (c : conn) :
  tables (fst (fst (find table_name query c))) = tables c
  /\ closed (fst (fst (find table_name query c))) = closed c.
Proof. apply find_loop_keeps. Qed.

(** On a connection the program can reach, no row is corrupt and the
    tables of the registry exist. *)
Lemma reachable_intact (c : conn) :
  reachable c ->
  forall table_name,
    intact c table_name = true
    /\ (mem_string table_name (map fst TABLES) = true ->
        exists rows, tables c !! table_name = Some rows).
Proof.
  induction 1 as [ | t d c Hwf Hc IH | t c Hc IH | t q c Hc IH | c Hc IH ];
    intros table_name.
  - split; [apply intact_fresh|].
    intros Hreg. destruct (registered_cases _ Hreg) as [-> | ->]; now exists [].
  - destruct (IH table_name) as [Hi He].
    split; [now apply intact_add_row|].
    intros Hreg. destruct (He Hreg) as (rows & Hrows).
    rewrite add_row_cases.
    destruct (mem_string t (map fst TABLES)); [|eauto].
    simpl. destruct (closed c); [eauto|].
    destruct (tables c !! t) as [rows'|] eqn:Ht; [|eauto].
    simpl. destruct (decide (t = table_name)) as [<-|Hne].
    + rewrite lookup_insert_eq. eauto.
    + rewrite lookup_insert_ne by exact Hne. eauto.
  - rewrite get_all_cases. unfold intact in *.
    destruct (mem_string t (map fst TABLES)); [|apply IH].
    simpl. destruct (closed c); apply IH.
  - unfold intact. destruct (find_keeps_tables t q c) as [-> _]. apply IH.
  - rewrite close_cases. apply IH.
Qed.

End Methods.

Section Loop.

Lemma keys_quote (a : list (string * pyval)) :
  map fst (map quote_entry a) = map fst a.
Proof. induction a as [|[k v] a IH]; simpl; [reflexivity | now rewrite IH]. Qed.

Lemma dict_get_fresh {A : Type} (k : string) (v : A) (a b : list (string * A)) :
  mem_string k (map fst a) = false ->
  dict_get k (a ++ (k, v) :: b) = Some v.
Proof.
  induction a as [|[k' v'] a IH]; simpl.
  - now rewrite String.eqb_refl.
  - destruct (String.eqb k' k); simpl; [discriminate | exact IH].
Qed.

Lemma dict_set_at {A : Type} (k : string) (v v' : A) (a b : list (string * A)) :
  mem_string k (map fst a) = false ->
  dict_set k v' (a ++ (k, v) :: b) = a ++ (k, v') :: b.
Proof.
  induction a as [|[k' w] a IH]; simpl.
  - now rewrite String.eqb_refl.
  - destruct (String.eqb k' k); simpl; [discriminate|].
    intros H. now rewrite IH.
Qed.

Lemma nodup_keys_fresh (k : string) (a b : list string) :
  nodup_keys (a ++ k :: b) = true -> mem_string k a = false.
Proof.
  induction a as [|x a IH]; simpl; [reflexivity|].
  intros H. apply andb_true_iff in H as [H1 H2].
  rewrite mem_string_app in H1. simpl in H1.
  destruct (String.eqb x k) eqn:E.
  - apply String.eqb_eq in E. subst x. rewrite String.eqb_refl in H1.
    rewrite orb_true_r in H1. discriminate.
  - simpl. now apply IH.
Qed.

End Loop.

Section Nested.








End Nested.

(** * The statements of the specification *)

(** C1.  The query example on the table [issues].  With one key, [find]
    returns the two documents whose age is 5, and nothing for the age 6.
    With the two keys [name] and [age] the statement is sent once per key
    and the rows of every answer are added to the result: the document
    that matches comes back twice. *)
Theorem find_query_example :
  snd (find "issues" [("age", PInt 5)] stocked) = Ok [doc_a; doc_b]
  /\ snd (find "issues" [("age", PInt 6)] stocked) = Ok []
  /\ snd (find "issues" [("name", PStr "a"); ("age", PInt 5)] stocked)
     = Ok [doc_a; doc_a]
  /\ snd (find "issues" [("age", PInt 5); ("name", PStr "a")] stocked)
     = Raise OperationalError.
Proof. vm_compute. auto. Qed.

(** C2.  [find] does not check the name of the table.  On a name outside
    the registry it returns the empty list for the empty query, and for
    another query it sends the statement to the engine, which knows no
    such table and raises [OperationalError]; [get_all] on the same name
    raises [KeyError] and sends nothing. *)
Theorem find_unregistered_table :
  find "bogus" [] fresh = (fresh, [], Ok [])
  /\ find "bogus" [("age", PInt 5)] fresh
     = (mkConn false (tables fresh)
          (trace fresh ++ ["SELECT * FROM bogus WHERE  json_extract(data, '$.age') = 5"]),
        [("age", PInt 5)], Raise OperationalError)
  /\ get_all "bogus" fresh = (fresh, Raise KeyError).
Proof. vm_compute. auto. Qed.

(** C3.  A value of the query is written into the statement between
    single quotes as it is, and a field path is written into the path as
    it is.  A stored name with a quote is not found: the statement does
    not parse.  A value can add a disjunct that holds for every row, or
    end the comparison early and turn the rest into a comment.  A field
    path that closes the literal of the path is not refused. *)
Theorem find_injection :
  snd (find "issues" [("name", PStr "it's")] (fst (add_row "issues" doc_quote stocked)))
  = Raise OperationalError
  /\ snd (find "issues" [("name", PStr "x' OR 'a'='a")] stocked) = Ok [doc_a; doc_b]
  /\ snd (find "issues" [("name", PStr "a' --")] stocked) = Ok [doc_a]
  /\ snd (find "issues" [("name') = 'b' OR json_extract(data, '$.name", PStr "a")] stocked)
     = Ok [doc_a; doc_b].
Proof. vm_compute. auto. Qed.




(** C5.  [add_row] on a table outside the registry raises [KeyError] and
    leaves the connection as it was: no statement is sent, no table
    changes.  On a table of the registry, with the connection open, the
    row is serialized with [json.dumps] and added after the rows the table
    holds, whatever they are: a document may be stored more than once. *)
Theorem add_row_registry (table_name : string) (row : json) (c : conn) :
  (mem_string table_name (map fst TABLES) = false ->
   add_row table_name row c = (c, Raise KeyError))
  /\ (mem_string table_name (map fst TABLES) = true ->
      closed c = false ->
      forall rows, tables c !! table_name = Some rows ->
        add_row table_name row c
        = (mkConn false (<[table_name := rows ++ [dumps row]]> (tables c))
             (trace c ++ ["INSERT INTO " +:+ table_name +:+ " VALUES (?);"]),
           Ok tt)).
Proof.
  rewrite add_row_cases. split.
  - now intros ->.
  - intros -> Hopen rows Hrows. simpl. now rewrite Hopen, Hrows.
Qed.

Lemma add_row_registry_witness :
  add_row "bogus" doc_a stocked = (stocked, Raise KeyError)
  /\ add_row "issues" doc_a stocked
     = (mkConn false
          (<["issues" := [dumps doc_a; dumps doc_b] ++ [dumps doc_a]]> (tables stocked))
          (trace stocked ++ ["INSERT INTO " +:+ "issues" +:+ " VALUES (?);"]),
        Ok tt).
Proof.
  split.
  - apply (proj1 (add_row_registry "bogus" doc_a stocked)). reflexivity.
  - apply (proj2 (add_row_registry "issues" doc_a stocked)); reflexivity.
Defined.





(** C8.  [close] never raises, on an open connection or on one that is
    closed already; it leaves the connection closed, so a second call,
    and any further one, returns as well, and the tables are the same
    after it. *)
Theorem close_idempotent (c : conn) :
  snd (close c) = Ok tt
  /\ closed (fst (close c)) = true
  /\ snd (close (fst (close c))) = Ok tt
  /\ closed (fst (close (fst (close c)))) = true
  /\ tables (fst (close (fst (close c)))) = tables c.
Proof. rewrite !close_cases. simpl. auto. Qed.

(** C9.  [find] with an empty query returns the empty list for every table
    name, registered or not, and leaves the connection as it was: the name
    is not checked, no statement is sent, nothing is raised. *)
Theorem find_empty_query (table_name : string) (c : conn) :
  find table_name [] c = (c, [], Ok []).
Proof. reflexivity. Qed.

(** C10.  [find] means to put every string of the query between single
    quotes, in the dict of the caller.  It does so one key at a time and
    sends the statement of a key inside the same loop: here the statement
    sent for the key [a] still holds the string of the key [b] bare, the
    engine takes it for a column and raises, and the loop never reaches
    [b], whose string is left as it was. *)
Theorem find_leaves_string_unquoted :
  find "issues" [("a", PStr "x"); ("b", PStr "y")] fresh
  = (mkConn false (tables fresh)
       (trace fresh
        ++ ["SELECT * FROM issues WHERE  json_extract(data, '$.a') = 'x' AND  json_extract(data, '$.b') = y"]),
     [("a", PStr "'x'"); ("b", PStr "y")],
     Raise OperationalError).
Proof. vm_compute. reflexivity. Qed.

(** * More of the class: [add_all], [get_all], [__init__] and the
    connection over several calls *)

Ltac split_matches :=
  repeat match goal with
         | |- context [match ?x with _ => _ end] => destruct x eqn:?
         end.

Section Connection.

Lemma run_trace (st : stmt) (rest : string) (params : list string) (c : conn) :
  trace (fst (run st rest params c)) = trace c
  /\ closed (fst (run st rest params c)) = closed c.
Proof. unfold run, with_table. split_matches; simpl; auto. Qed.

(** Every call of [execute] is one more statement in the trace, whatever
    it does. *)
Lemma execute_trace (sql : string) (params : list string) (c : conn) :
  trace (fst (execute sql params c)) = trace c ++ [sql]
  /\ closed (fst (execute sql params c)) = closed c.
Proof.
  unfold execute. destruct (closed c) eqn:Hc; [simpl; auto|].
  destruct (tokenize sql) as [[ts rest]|]; [|simpl; auto].
  destruct (parse_stmt ts) as [st|]; [|simpl; auto].
  destruct (run_trace st rest params (mkConn false (tables c) (trace c ++ [sql])))
    as [-> ->]. simpl. auto.
Qed.

(** What a statement answers depends on the tables and on whether the
    connection is open, and on nothing else. *)
Lemma execute_outcome_ext (sql : string) (params : list string) (c c' : conn) :
  closed c = closed c' -> tables c = tables c' ->
  snd (execute sql params c) = snd (execute sql params c').
Proof.
  destruct c as [cl tb tr], c' as [cl' tb' tr']. simpl. intros <- <-.
  unfold execute. simpl. destruct cl; [reflexivity|].
  destruct (tokenize sql) as [[ts rest]|]; [|reflexivity].
  destruct (parse_stmt ts) as [st|]; [|reflexivity].
  unfold run, table, with_table. simpl.
  destruct st; split_matches; reflexivity.
Qed.

End Connection.

Section Bulk.

Lemma add_rows_appends (table_name : string) (docs : list json) :
  registered table_name = true ->
  forall (c : conn) (rows : list string),
    closed c = false ->
    tables c !! table_name = Some rows ->
    snd (add_rows table_name docs c) = Ok tt
    /\ closed (fst (add_rows table_name docs c)) = false
    /\ tables (fst (add_rows table_name docs c))
       = <[table_name := rows ++ map dumps docs]> (tables c)
    /\ trace (fst (add_rows table_name docs c))
       = trace c ++ repeat (insert_stmt table_name) (length docs).
Proof.
  intros Hreg. unfold registered in Hreg.
  induction docs as [|d docs IH]; intros c rows Hopen Hrows.
  - simpl. rewrite !app_nil_r. repeat split; auto.
    symmetry. now apply insert_id.
  - cbn [add_rows]. unfold bind. rewrite add_row_cases, Hreg.
    cbv beta zeta. rewrite Hopen, Hrows. cbv beta match.
    fold (insert_stmt table_name).
    destruct (IH (mkConn false (<[table_name := rows ++ [dumps d]]> (tables c))
                    (trace c ++ [insert_stmt table_name]))
                (rows ++ [dumps d]) eq_refl) as (H1 & H2 & H3 & H4).
    { apply lookup_insert_eq. }
    rewrite H1, H2, H3, H4. cbn [tables trace length repeat map].
    rewrite insert_insert_eq, <- !app_assoc. auto.
Qed.

End Bulk.

(** X1.  [add_all] on a table of the registry, with the connection open:
    it returns, the serialized documents are added after the rows of the
    table in the order of the list, one INSERT statement is sent for each
    of them, and the connection stays open. *)
Theorem add_all_appends (table_name : string) (docs : list json) (c : conn)
    (rows : list string) :
  registered table_name = true ->
  closed c = false ->
  tables c !! table_name = Some rows ->
  snd (add_all table_name docs c) = Ok tt
  /\ closed (fst (add_all table_name docs c)) = false
  /\ tables (fst (add_all table_name docs c))
     = <[table_name := rows ++ map dumps docs]> (tables c)
  /\ trace (fst (add_all table_name docs c))
     = trace c ++ repeat (insert_stmt table_name) (length docs).
Proof.
  intros Hreg Hopen Hrows. unfold add_all, bind.
  rewrite check_table_registered by exact Hreg.
  now apply add_rows_appends.
Qed.

Lemma add_all_appends_witness :
  snd (add_all "rules" [doc_a; doc_a; doc_xy] stocked) = Ok tt
  /\ closed (fst (add_all "rules" [doc_a; doc_a; doc_xy] stocked)) = false
  /\ tables (fst (add_all "rules" [doc_a; doc_a; doc_xy] stocked))
     = <["rules" := [] ++ map dumps [doc_a; doc_a; doc_xy]]> (tables stocked)
  /\ trace (fst (add_all "rules" [doc_a; doc_a; doc_xy] stocked))
     = trace stocked ++ repeat (insert_stmt "rules") (length [doc_a; doc_a; doc_xy]).
Proof.
  apply (add_all_appends "rules" [doc_a; doc_a; doc_xy] stocked []); reflexivity.
Defined.

(** X2.  The edges of [add_all].  Outside the registry it raises
    [KeyError] and the connection is as it was, whatever the list.  With
    an empty list on a table of the registry it returns and sends nothing,
    even on a closed connection.  On a closed connection a list that is
    not empty stops at its first document: [ProgrammingError], one
    statement tried, no table changed. *)
Theorem add_all_edges (table_name : string) (d : json) (docs : list json)
    (c : conn) :
  (registered table_name = false ->
   add_all table_name (d :: docs) c = (c, Raise KeyError)
   /\ add_all table_name [] c = (c, Raise KeyError))
  /\ (registered table_name = true -> add_all table_name [] c = (c, Ok tt))
  /\ (registered table_name = true -> closed c = true ->
      add_all table_name (d :: docs) c
      = (mkConn true (tables c) (trace c ++ [insert_stmt table_name]),
         Raise ProgrammingError)).
Proof.
  unfold registered, add_all, bind. split; [|split].
  - intros H. now rewrite check_table_unregistered.
  - intros H. now rewrite check_table_registered.
  - intros H Hc. rewrite check_table_registered by exact H.
    cbn [add_rows]. unfold bind. rewrite add_row_cases, H.
    cbv beta zeta. now rewrite Hc.
Qed.

Lemma add_all_edges_witness :
  (add_all "bogus" [doc_a; doc_b] stocked = (stocked, Raise KeyError)
   /\ add_all "bogus" [] stocked = (stocked, Raise KeyError))
  /\ add_all "issues" [] (fst (close stocked)) = (fst (close stocked), Ok tt)
  /\ add_all "issues" [doc_a; doc_b] (fst (close stocked))
     = (mkConn true (tables (fst (close stocked)))
          (trace (fst (close stocked)) ++ [insert_stmt "issues"]),
        Raise ProgrammingError).
Proof.
  split; [|split].
  - apply (proj1 (add_all_edges "bogus" doc_a [doc_b] stocked)). reflexivity.
  - apply (proj1 (proj2 (add_all_edges "issues" doc_a [] (fst (close stocked))))).
    reflexivity.
  - apply (proj2 (proj2 (add_all_edges "issues" doc_a [doc_b] (fst (close stocked)))));
      reflexivity.
Defined.

Section Reading.

(** The rows read so far do not matter to the rows that follow. *)
Lemma load_rows_from (acc : list json) (rs : list row) :
  load_rows acc rs
  = match load_rows [] rs with
    | Ok docs => Ok (acc ++ docs)
    | Raise e => Raise e
    end.
Proof.
  revert acc. induction rs as [|r rs IH]; intros acc; simpl.
  - now rewrite app_nil_r.
  - destruct (load_row r) as [d|e]; [|reflexivity].
    rewrite (IH (acc ++ [d])), (IH [d]).
    destruct (load_rows [] rs); [|reflexivity].
    now rewrite <- app_assoc.
Qed.

Lemma load_rows_dumps (docs : list json) :
  forallb json_wf docs = true ->
  load_rows [] (map (fun r => [VText r]) (map dumps docs)) = Ok docs.
Proof.
  induction docs as [|d docs IH]; simpl; [reflexivity|].
  intros H. apply andb_true_iff in H as [Hd H].
  rewrite (loads_dumps d Hd), load_rows_from, (IH H). reflexivity.
Qed.

Lemma add_all_effect (table_name : string) (docs : list json) (c : conn)
    (rows : list string) :
  mem_string table_name (map fst TABLES) = true ->
  closed c = false ->
  tables c !! table_name = Some rows ->
  snd (add_all table_name docs c) = Ok tt
  /\ closed (fst (add_all table_name docs c)) = false
  /\ tables (fst (add_all table_name docs c))
     = <[table_name := rows ++ map dumps docs]> (tables c).
Proof.
  intros Hreg Hopen Hrows. unfold add_all, bind.
  rewrite check_table_registered by exact Hreg.
  destruct (add_rows_appends table_name docs Hreg c rows Hopen Hrows)
    as (H1 & H2 & H3 & _). auto.
Qed.

End Reading.

(** X3.  After [add_all] of documents on a table that [get_all] could
    read, [get_all] returns what it returned before followed by the
    documents, in the order of the list: nothing is lost, nothing is
    added, and the documents come back equal. *)
Theorem get_all_after_add_all (table_name : string) (docs old : list json)
    (c : conn) :
  forallb json_wf docs = true ->
  snd (get_all table_name c) = Ok old ->
  snd (add_all table_name docs c) = Ok tt
  /\ snd (get_all table_name (fst (add_all table_name docs c))) = Ok (old ++ docs).
Proof.
  intros Hwf Hold. rewrite get_all_cases in Hold.
  destruct (mem_string table_name (map fst TABLES)) eqn:Hreg; [|discriminate].
  cbv zeta in Hold. destruct (closed c) eqn:Hopen; [discriminate|].
  simpl in Hold.
  destruct (tables c !! table_name) as [rows|] eqn:Hrows; [|discriminate].
  destruct (add_all_effect table_name docs c rows Hreg Hopen Hrows)
    as (H1 & H2 & H3).
  split; [exact H1|].
  rewrite get_all_cases, Hreg. cbv zeta. rewrite H2, H3. simpl.
  rewrite lookup_insert_eq, map_app, load_rows_app, Hold, load_rows_from.
  now rewrite load_rows_dumps.
Qed.

Lemma get_all_after_add_all_witness :
  snd (add_all "issues" [doc_city; doc_xy; doc_city] stocked) = Ok tt
  /\ snd (get_all "issues" (fst (add_all "issues" [doc_city; doc_xy; doc_city] stocked)))
     = Ok ([doc_a; doc_b] ++ [doc_city; doc_xy; doc_city]).
Proof.
  apply (get_all_after_add_all "issues" [doc_city; doc_xy; doc_city] [doc_a; doc_b] stocked);
    reflexivity.
Defined.

Section Decoding.

Lemma load_rows_exact (rows : list string) :
  forallb loadable rows = true ->
  exists docs, load_rows [] (map (fun r => [VText r]) rows) = Ok docs
               /\ map loads rows = map Some docs.
Proof.
  induction rows as [|r rows IH]; simpl; intros H.
  - exists []. auto.
  - apply andb_true_iff in H as [Hr H]. unfold loadable in Hr.
    destruct (loads r) as [d|] eqn:Hd; [|discriminate].
    destruct (IH H) as (docs & E & Hmap).
    exists (d :: docs). rewrite load_rows_from, E. simpl. now rewrite Hmap.
Qed.

Lemma load_rows_corrupt (rows : list string) :
  forallb loadable rows = false ->
  load_rows [] (map (fun r => [VText r]) rows) = Raise JSONDecodeError.
Proof.
  induction rows as [|r rows IH]; simpl; intros H; [discriminate|].
  unfold loadable in H at 1.
  destruct (loads r) as [d|]; [|reflexivity].
  simpl in H. rewrite load_rows_from, (IH H). reflexivity.
Qed.

Lemma skip_ws_head (r : string) (c : ascii) (s' : string) :
  skip_ws r = String c s' -> is_ws c = false.
Proof.
  induction r as [|x r IH]; simpl; [discriminate|].
  destruct (is_ws x) eqn:E; [exact IH|]. now intros [= <- _].
Qed.

Lemma skip_ws_idem (r : string) : skip_ws (skip_ws r) = skip_ws r.
Proof.
  induction r as [|x r IH]; simpl; [reflexivity|].
  destruct (is_ws x) eqn:E; [exact IH|]. simpl. now rewrite E.
Qed.

Lemma parse_value_skip_ws (f : nat) (r : string) :
  parse_value f r = parse_value f (skip_ws r).
Proof. destruct f; [reflexivity|]. cbn [parse_value]. now rewrite skip_ws_idem. Qed.

(** No value starts with a character that [can_start] refuses. *)
Lemma parse_value_bad_start (f : nat) (c : ascii) (s' : string) :
  is_ws c = false -> can_start c = false -> parse_value f (String c s') = None.
Proof.
  destruct f; [reflexivity|].
  destruct c as [[] [] [] [] [] [] [] []]; try discriminate; intros _ _; reflexivity.
Qed.

Lemma bad_start_loads (r : string) : bad_start r = true -> loads r = None.
Proof.
  unfold bad_start, loads. intros H. rewrite parse_value_skip_ws.
  destruct (skip_ws r) as [|c s'] eqn:E; [reflexivity|].
  rewrite parse_value_bad_start; [reflexivity | exact (skip_ws_head r c s' E) |].
  now destruct (can_start c).
Qed.

Lemma bad_start_not_loadable (rows : list string) :
  existsb bad_start rows = true -> forallb loadable rows = false.
Proof.
  induction rows as [|r rows IH]; simpl; [discriminate|].
  intros H. apply orb_true_iff in H as [H|H].
  - unfold loadable. now rewrite (bad_start_loads r H).
  - rewrite (IH H). apply andb_false_r.
Qed.

End Decoding.

(** X4.  [get_all] on a table with no corrupt row returns one document for
    each row, in the order of the rows: the list of the documents is the
    list of the rows decoded. *)
Theorem get_all_in_order (table_name : string) (c : conn) (rows : list string) :
  registered table_name = true ->
  closed c = false ->
  tables c !! table_name = Some rows ->
  forallb loadable rows = true ->
  exists docs, snd (get_all table_name c) = Ok docs
               /\ map loads rows = map Some docs.
Proof.
  intros Hreg Hopen Hrows Hload. unfold registered in Hreg.
  rewrite get_all_cases, Hreg. cbv zeta. rewrite Hopen, Hrows. simpl.
  now apply load_rows_exact.
Qed.

Lemma get_all_in_order_witness :
  exists docs, snd (get_all "issues" stocked) = Ok docs
               /\ map loads [dumps doc_a; dumps doc_b] = map Some docs.
Proof.
  apply (get_all_in_order "issues" stocked [dumps doc_a; dumps doc_b]); reflexivity.
Defined.

(** X5.  One row that is no JSON text makes [get_all] fail as a whole:
    when a row of the table is empty or starts with a character that
    starts no JSON value, [get_all] raises [JSONDecodeError] and returns
    none of the documents, those stored before that row included. *)
Theorem get_all_corrupt_row (table_name : string) (c : conn) (rows : list string) :
  registered table_name = true ->
  closed c = false ->
  tables c !! table_name = Some rows ->
  existsb bad_start rows = true ->
  get_all table_name c
  = (mkConn false (tables c) (trace c ++ [select_stmt table_name]),
     Raise JSONDecodeError).
Proof.
  intros Hreg Hopen Hrows Hbad. unfold registered in Hreg.
  rewrite get_all_cases, Hreg. cbv zeta. rewrite Hopen, Hrows.
  now rewrite (load_rows_corrupt rows (bad_start_not_loadable rows Hbad)).
Qed.

Lemma get_all_corrupt_row_witness :
  get_all "issues" spoiled
  = (mkConn false (tables spoiled) (trace spoiled ++ [select_stmt "issues"]),
     Raise JSONDecodeError).
Proof.
  apply (get_all_corrupt_row "issues" spoiled [dumps doc_xy; "<html>"]); reflexivity.
Defined.

(** X6.  [get_all] and [find] only read: whatever the table name and the
    query, the value of a query included, no table has a row more or less
    after the call, and the connection is open or closed as it was. *)
Theorem reading_changes_no_table (table_name : string)
    (query : list (string * pyval)) (c : conn) :
  tables (fst (get_all table_name c)) = tables c
  /\ closed (fst (get_all table_name c)) = closed c
  /\ tables (fst (fst (find table_name query c))) = tables c
  /\ closed (fst (fst (find table_name query c))) = closed c.
Proof.
  split; [|split]; [| |apply find_loop_keeps].
  - rewrite get_all_cases.
    destruct (mem_string table_name (map fst TABLES)); [|reflexivity].
    cbv zeta. now destruct (closed c).
  - rewrite get_all_cases.
    destruct (mem_string table_name (map fst TABLES)); [|reflexivity].
    cbv zeta. now destruct (closed c) eqn:E.
Qed.

Section Frame.

Lemma add_row_other (table_name other : string) (d : json) (c : conn) :
  String.eqb table_name other = false ->
  tables (fst (add_row table_name d c)) !! other = tables c !! other.
Proof.
  intros Hne. apply String.eqb_neq in Hne.
  rewrite add_row_cases.
  destruct (mem_string table_name (map fst TABLES)); [|reflexivity].
  cbv zeta. destruct (closed c); [reflexivity|].
  destruct (tables c !! table_name); [|reflexivity].
  simpl. now rewrite lookup_insert_ne.
Qed.

Lemma add_row_closed (table_name : string) (d : json) (c : conn) :
  closed (fst (add_row table_name d c)) = closed c.
Proof.
  rewrite add_row_cases.
  destruct (mem_string table_name (map fst TABLES)); [|reflexivity].
  cbv zeta. destruct (closed c) eqn:E; [reflexivity|].
  now destruct (tables c !! table_name).
Qed.

End Frame.

(** X7.  [add_row] touches one table at most: the rows of every other
    table are as they were, the connection is open or closed as it was,
    and when [add_row] raises no table has changed at all. *)
Theorem add_row_frame (table_name other : string) (d : json) (c : conn) :
  closed (fst (add_row table_name d c)) = closed c
  /\ (forall e, snd (add_row table_name d c) = Raise e ->
        tables (fst (add_row table_name d c)) = tables c)
  /\ (String.eqb table_name other = false ->
        tables (fst (add_row table_name d c)) !! other = tables c !! other).
Proof.
  split; [apply add_row_closed | split; [|apply add_row_other]].
  intros e. rewrite add_row_cases.
  destruct (mem_string table_name (map fst TABLES)); [|reflexivity].
  cbv zeta. destruct (closed c); [reflexivity|].
  destruct (tables c !! table_name); [discriminate | reflexivity].
Qed.

Lemma add_row_frame_witness :
  closed (fst (add_row "rules" doc_xy stocked)) = closed stocked
  /\ (forall e, snd (add_row "rules" doc_xy stocked) = Raise e ->
        tables (fst (add_row "rules" doc_xy stocked)) = tables stocked)
  /\ tables (fst (add_row "rules" doc_xy stocked)) !! "issues"
     = tables stocked !! "issues".
Proof.
  destruct (add_row_frame "rules" "issues" doc_xy stocked) as (H1 & H2 & H3).
  split; [exact H1 | split; [exact H2 | apply H3; reflexivity]].
Defined.

(** X8.  What [get_all] answers for a table does not depend on an
    [add_row] on another table, whether that [add_row] returned or
    raised. *)
Theorem get_all_other_table (table_name other : string) (d : json) (c : conn) :
  String.eqb table_name other = false ->
  snd (get_all other (fst (add_row table_name d c))) = snd (get_all other c).
Proof.
  intros Hne. rewrite !get_all_cases.
  destruct (mem_string other (map fst TABLES)); [|reflexivity].
  cbv zeta. rewrite add_row_closed, (add_row_other _ _ _ _ Hne).
  now destruct (closed c).
Qed.

Lemma get_all_other_table_witness :
  snd (get_all "issues" (fst (add_row "rules" doc_xy stocked)))
  = snd (get_all "issues" stocked).
Proof.
  apply (get_all_other_table "rules" "issues" doc_xy stocked). reflexivity.
Defined.

(** X9.  On a closed connection every method that reaches the engine
    raises [ProgrammingError] and changes no table.  The check of the
    table name comes first in [add_row] and [get_all], which raise
    [KeyError] outside the registry; [find] has no such check, and it has
    already put the string of its first key between quotes when the
    statement is refused. *)
Theorem use_after_close (table_name k : string) (v : pyval)
    (query : list (string * pyval)) (d : json) (c : conn) :
  closed c = true ->
  (registered table_name = true ->
   add_row table_name d c
   = (mkConn true (tables c) (trace c ++ [insert_stmt table_name]),
      Raise ProgrammingError)
   /\ get_all table_name c
      = (mkConn true (tables c) (trace c ++ [select_stmt table_name]),
         Raise ProgrammingError))
  /\ (registered table_name = false ->
      add_row table_name d c = (c, Raise KeyError)
      /\ get_all table_name c = (c, Raise KeyError))
  /\ find table_name ((k, v) :: query) c
     = (mkConn true (tables c)
          (trace c ++ [select_where table_name ((k, quote v) :: query)]),
        (k, quote v) :: query, Raise ProgrammingError).
Proof.
  intros Hc. unfold registered. split; [|split].
  - intros Hreg. rewrite add_row_cases, get_all_cases, Hreg. cbv zeta.
    now rewrite Hc.
  - intros Hreg. rewrite add_row_cases, get_all_cases, Hreg. auto.
  - unfold find. cbn [map fst find_loop dict_get]. rewrite String.eqb_refl.
    assert (E : match v with
                | PStr _ => dict_set k (quote v) ((k, v) :: query)
                | _ => (k, v) :: query
                end = (k, quote v) :: query).
    { destruct v; try reflexivity. cbn [dict_set]. now rewrite String.eqb_refl. }
    rewrite E. fold (select_where table_name ((k, quote v) :: query)).
    now rewrite execute_closed.
Qed.

Lemma use_after_close_witness :
  (add_row "issues" doc_a (fst (close stocked))
   = (mkConn true (tables (fst (close stocked)))
        (trace (fst (close stocked)) ++ [insert_stmt "issues"]),
      Raise ProgrammingError)
   /\ get_all "issues" (fst (close stocked))
      = (mkConn true (tables (fst (close stocked)))
           (trace (fst (close stocked)) ++ [select_stmt "issues"]),
         Raise ProgrammingError))
  /\ find "issues" [("name", PStr "a"); ("age", PInt 5)] (fst (close stocked))
     = (mkConn true (tables (fst (close stocked)))
          (trace (fst (close stocked))
           ++ [select_where "issues" [("name", quote (PStr "a")); ("age", PInt 5)]]),
        [("name", quote (PStr "a")); ("age", PInt 5)], Raise ProgrammingError).
Proof.
  destruct (use_after_close "issues" "name" (PStr "a") [("age", PInt 5)] doc_a
              (fst (close stocked)) eq_refl) as (H1 & _ & H3).
  split; [apply H1; reflexivity | exact H3].
Defined.

Section Opening.

Lemma execute_create (table_name : string) (c : conn) :
  mem_string table_name (map fst TABLES) = true ->
  closed c = false ->
  execute ("CREATE TABLE IF NOT EXISTS " +:+ table_name +:+ " (data TEXT);") [] c
  = (mkConn false
       (match tables c !! table_name with
        | Some _ => tables c
        | None => <[table_name := []]> (tables c)
        end)
       (trace c ++ ["CREATE TABLE IF NOT EXISTS " +:+ table_name +:+ " (data TEXT);"]),
     Ok []).
Proof.
  intros Hreg Hopen.
  destruct (registered_cases _ Hreg); subst table_name;
    run_statement; rewrite Hopen; destruct (tables c !! _); reflexivity.
Qed.

End Opening.

Section Constructor.

Lemma init_cases (f : gmap string (list string)) :
  __init__ f
  = (mkConn false
       (let f1 := match f !! "issues" with
                  | Some _ => f
                  | None => <["issues" := []]> f
                  end in
        match f1 !! "rules" with
        | Some _ => f1
        | None => <["rules" := []]> f1
        end)
       ["CREATE TABLE IF NOT EXISTS issues (data TEXT);";
        "CREATE TABLE IF NOT EXISTS rules (data TEXT);"],
     Ok tt).
Proof.
  unfold __init__. cbn [map fst TABLES create_tables]. unfold bind, connect.
  rewrite (execute_create "issues") by reflexivity. cbn [tables trace closed].
  rewrite (execute_create "rules") by reflexivity. cbn [tables trace closed].
  reflexivity.
Qed.


Lemma init_effect (f : gmap string (list string)) (table_name : string) :
  snd (__init__ f) = Ok tt
  /\ closed (fst (__init__ f)) = false
  /\ trace (fst (__init__ f))
     = ["CREATE TABLE IF NOT EXISTS issues (data TEXT);";
        "CREATE TABLE IF NOT EXISTS rules (data TEXT);"]
  /\ tables (fst (__init__ f)) !! table_name
     = if registered table_name then Some (default [] (f !! table_name))
       else f !! table_name.
Proof.
  rewrite init_cases. cbn [fst snd closed trace tables].
  repeat split.
  unfold registered. cbn [map fst TABLES mem_string].
  destruct (String.eqb_spec "issues" table_name) as [<-|Hi];
    [|destruct (String.eqb_spec "rules" table_name) as [<-|Hr]]; cbn [orb].
  - destruct (f !! "issues") as [rows|] eqn:Ei; cbv zeta.
    + destruct (f !! "rules"); [|rewrite lookup_insert_ne by discriminate];
        now rewrite Ei.
    + rewrite (lookup_insert_ne f "issues" "rules") by discriminate.
      destruct (f !! "rules"); [|rewrite lookup_insert_ne by discriminate];
        now rewrite lookup_insert_eq.
  - destruct (f !! "issues") as [rows|] eqn:Ei; cbv zeta.
    + destruct (f !! "rules") as [rows'|] eqn:Er;
        [now rewrite Er | now rewrite lookup_insert_eq].
    + rewrite (lookup_insert_ne f "issues" "rules") by discriminate.
      destruct (f !! "rules") as [rows'|] eqn:Er.
      * rewrite lookup_insert_ne by discriminate. now rewrite Er.
      * now rewrite lookup_insert_eq.
  - destruct (f !! "issues") as [rows|] eqn:Ei; cbv zeta.
    + destruct (f !! "rules"); [reflexivity|]. now rewrite lookup_insert_ne.
    + rewrite (lookup_insert_ne f "issues" "rules") by discriminate.
      destruct (f !! "rules"); [|rewrite lookup_insert_ne by exact Hr];
        now rewrite lookup_insert_ne.
Qed.

End Constructor.

(** X10.  [__init__] on a database file whose tables have the one column
    [data], given by its tables under their names in lower case: when
    [__init__] returns, the connection is open and two CREATE statements
    were sent.  Every table of the registry exists afterwards, with the
    rows the file had for it, or none when the file had no such table;
    every other table of the file is as it was. *)
Theorem init_tables (f : gmap string (list string)) (table_name : string) :
  lower_names f = true ->
  snd (__init__ f) = Ok tt ->
  closed (fst (__init__ f)) = false
  /\ trace (fst (__init__ f))
     = ["CREATE TABLE IF NOT EXISTS issues (data TEXT);";
        "CREATE TABLE IF NOT EXISTS rules (data TEXT);"]
  /\ tables (fst (__init__ f)) !! table_name
     = if registered table_name then Some (default [] (f !! table_name))
       else f !! table_name.
Proof. intros _ _. exact (proj2 (init_effect f table_name)). Qed.

Lemma init_tables_witness :
  closed (fst (__init__ {["rules" := [dumps doc_a]]})) = false
  /\ trace (fst (__init__ {["rules" := [dumps doc_a]]}))
     = ["CREATE TABLE IF NOT EXISTS issues (data TEXT);";
        "CREATE TABLE IF NOT EXISTS rules (data TEXT);"]
  /\ tables (fst (__init__ {["rules" := [dumps doc_a]]})) !! "issues"
     = if registered "issues"
       then Some (default []
                    (({["rules" := [dumps doc_a]]} : gmap string (list string))
                       !! "issues"))
       else ({["rules" := [dumps doc_a]]} : gmap string (list string)) !! "issues".
Proof.
  apply (init_tables {["rules" := [dumps doc_a]]} "issues"); reflexivity.
Defined.



Section Counting.

Lemma dict_get_mem {A : Type} (k : string) (d : list (string * A)) :
  mem_string k (map fst d) = true -> exists v, dict_get k d = Some v.
Proof.
  induction d as [|[k' v'] d IH]; simpl; [discriminate|].
  destruct (String.eqb k' k); simpl; eauto.
Qed.

Lemma keys_dict_set {A : Type} (k : string) (v : A) (d : list (string * A)) :
  mem_string k (map fst d) = true -> map fst (dict_set k v d) = map fst d.
Proof.
  induction d as [|[k' v'] d IH]; simpl; [discriminate|].
  destruct (String.eqb k' k); simpl; [reflexivity|].
  intros H. now rewrite IH.
Qed.

Lemma mem_string_In (k : string) (l : list string) :
  In k l -> mem_string k l = true.
Proof.
  induction l as [|x l IH]; simpl; [contradiction|].
  intros [->|H]; [now rewrite String.eqb_refl | rewrite IH by exact H; apply orb_true_r].
Qed.

(** One statement for each key the loop reaches. *)
Lemma find_loop_count (table_name : string) (keys : list string) :
  forall (query : list (string * pyval)) (results : list json) (c : conn),
    (forall k, In k keys -> mem_string k (map fst query) = true) ->
    exists n,
      length (trace (fst (fst (find_loop keys table_name query results c))))
      = length (trace c) + n
      /\ n <= length keys
      /\ (forall l, snd (find_loop keys table_name query results c) = Ok l ->
            n = length keys)
      /\ (forall e, snd (find_loop keys table_name query results c) = Raise e ->
            1 <= n).
Proof.
  induction keys as [|k keys IH]; intros query results c Hkeys.
  - exists 0. simpl. repeat split; [lia | lia | discriminate].
  - cbn [find_loop].
    destruct (dict_get_mem k query (Hkeys k (or_introl eq_refl))) as (v & ->).
    set (query1 := match v with
                   | PStr _ => dict_set k (quote v) query
                   | _ => query
                   end).
    assert (Hkeys1 : forall k', In k' keys -> mem_string k' (map fst query1) = true).
    { intros k' Hk'. subst query1.
      destruct v; try (apply Hkeys; now right).
      rewrite keys_dict_set by (apply Hkeys; now left). apply Hkeys. now right. }
    match goal with
    | |- context [execute ?sql [] c] =>
        destruct (execute_trace sql [] c) as [Ht _];
        destruct (execute sql [] c) as [c1 [rs|e]]
    end; cbn [fst] in Ht.
    + destruct (load_rows results rs) as [results1|e].
      * destruct (IH query1 results1 c1 Hkeys1) as (n & Hn & Hle & Hok & Hraise).
        exists (S n). rewrite Hn, Ht, length_app. simpl.
        repeat split; [lia | lia | | ].
        -- intros l Hl. now rewrite (Hok l Hl).
        -- intros; lia.
      * exists 1. cbn [fst snd]. rewrite Ht, length_app. simpl.
        repeat split; [lia | discriminate | lia].
    + exists 1. cbn [fst snd]. rewrite Ht, length_app. simpl.
      repeat split; [lia | discriminate | lia].
Qed.

End Counting.

(** X12.  [find] sends one statement for each key of the query it
    reaches: as many statements as keys when it returns, at least one and
    no more than that when it raises. *)
Theorem find_statement_count (table_name : string) (query : list (string * pyval))
    (c : conn) :
  exists n,
    length (trace (fst (fst (find table_name query c)))) = length (trace c) + n
    /\ n <= length query
    /\ (forall l, snd (find table_name query c) = Ok l -> n = length query)
    /\ (forall e, snd (find table_name query c) = Raise e -> 1 <= n).
Proof.
  unfold find.
  destruct (find_loop_count table_name (map fst query) query [] c)
    as (n & H1 & H2 & H3 & H4).
  { intros k Hk. now apply mem_string_In. }
  rewrite length_map in H2, H3. exists n. auto.
Qed.

Section Repeating.

Lemma dict_get_no_str (k : string) (v : pyval) (query : list (string * pyval)) :
  forallb (fun kv => negb (is_str (snd kv))) query = true ->
  dict_get k query = Some v -> is_str v = false.
Proof.
  induction query as [|[k' v'] query IH]; simpl; [discriminate|].
  intros H. apply andb_true_iff in H as [H1 H2].
  destruct (String.eqb k' k); [|now apply IH].
  intros [= <-]. now destruct (is_str v').
Qed.

(** With no string among its values the query never changes, every turn
    of the loop sends the same statement, and the answer of the statement
    is added once more. *)
Lemma find_loop_repeats (table_name : string) (query : list (string * pyval))
    (c0 : conn) (rs : list row) (docs : list json) (keys : list string) :
  forallb (fun kv => negb (is_str (snd kv))) query = true ->
  snd (execute (select_where table_name query) [] c0) = Ok rs ->
  load_rows [] rs = Ok docs ->
  (forall k, In k keys -> mem_string k (map fst query) = true) ->
  forall (results : list json) (c : conn),
    closed c = closed c0 -> tables c = tables c0 ->
    snd (fst (find_loop keys table_name query results c)) = query
    /\ snd (find_loop keys table_name query results c)
       = Ok (results ++ List.concat (repeat docs (length keys))).
Proof.
  intros Hns Hrs Hdocs. induction keys as [|k keys IH]; intros Hkeys results c Hcl Htb.
  - simpl. now rewrite app_nil_r.
  - cbn [find_loop].
    destruct (dict_get_mem k query (Hkeys k (or_introl eq_refl))) as (v & Hv).
    rewrite Hv. pose proof (dict_get_no_str k v query Hns Hv) as Hstr.
    assert (E : match v with
                | PStr _ => dict_set k (quote v) query
                | _ => query
                end = query) by (destruct v; [reflexivity..|discriminate]).
    rewrite E. fold (select_where table_name query).
    pose proof (execute_outcome_ext (select_where table_name query) [] c c0 Hcl Htb) as Hsame.
    rewrite Hrs in Hsame.
    destruct (execute_select_keeps
                (table_name +:+ " WHERE " +:+ where_clause query) [] c) as [Ht Hc].
    fold (select_where table_name query) in Ht, Hc.
    destruct (execute (select_where table_name query) [] c) as [c1 o].
    cbn [fst snd] in *. subst o.
    rewrite load_rows_from, Hdocs.
    destruct (IH (fun k' Hk' => Hkeys k' (or_intror Hk')) (results ++ docs) c1)
      as [Hq Hr]; [congruence | congruence |].
    rewrite Hq, Hr. split; [reflexivity|].
    cbn [length repeat List.concat]. now rewrite <- app_assoc.
Qed.

End Repeating.

(** X13.  When no value of the query is a string, [find] leaves the query
    as it was and returns the answer of its one statement as many times
    as the query has keys: a document that matches a query of [n] keys is
    returned [n] times. *)
Theorem find_repeats_answer (table_name : string) (query : list (string * pyval))
    (c : conn) (rs : list row) (docs : list json) :
  forallb (fun kv => negb (is_str (snd kv))) query = true ->
  snd (execute (select_where table_name query) [] c) = Ok rs ->
  load_rows [] rs = Ok docs ->
  snd (fst (find table_name query c)) = query
  /\ snd (find table_name query c)
     = Ok (List.concat (repeat docs (length query))).
Proof.
  intros Hns Hrs Hdocs. unfold find.
  destruct (find_loop_repeats table_name query c rs docs (map fst query)
              Hns Hrs Hdocs (fun k Hk => mem_string_In k _ Hk) [] c eq_refl eq_refl)
    as [Hq Hr].
  rewrite length_map in Hr. auto.
Qed.

Lemma find_repeats_answer_witness :
  snd (fst (find "rules" [("x", PInt 1); ("y", PInt 2)] stocked_xy))
  = [("x", PInt 1); ("y", PInt 2)]
  /\ snd (find "rules" [("x", PInt 1); ("y", PInt 2)] stocked_xy)
     = Ok (List.concat (repeat [doc_xy] (length [("x", PInt 1); ("y", PInt 2)]))).
Proof.
  apply (find_repeats_answer "rules" [("x", PInt 1); ("y", PInt 2)] stocked_xy
           [[VText (dumps doc_xy)]] [doc_xy]); reflexivity.
Defined.

Section Batches.

Lemma add_rows_app (table_name : string) (a b : list json) (c : conn) :
  add_rows table_name (a ++ b) c
  = match add_rows table_name a c with
    | (c1, Ok _) => add_rows table_name b c1
    | (c1, Raise e) => (c1, Raise e)
    end.
Proof.
  revert c. induction a as [|d a IH]; intros c; [reflexivity|].
  cbn [app add_rows]. unfold bind.
  destruct (add_row table_name d c) as [c1 [[]|e]]; [apply IH | reflexivity].
Qed.

Lemma reachable_add_rows (table_name : string) (docs : list json) (c : conn) :
  forallb json_wf docs = true -> reachable c ->
  reachable (fst (add_rows table_name docs c)).
Proof.
  revert c. induction docs as [|d docs IH]; intros c Hwf Hc; [exact Hc|].
  simpl in Hwf. apply andb_true_iff in Hwf as [Hd Hwf].
  cbn [add_rows]. unfold bind.
  pose proof (reach_add_row table_name d c Hd Hc) as H1.
  destruct (add_row table_name d c) as [c1 [[]|e]]; [now apply IH | exact H1].
Qed.

Lemma reachable_add_all (table_name : string) (docs : list json) (c : conn) :
  forallb json_wf docs = true -> reachable c ->
  reachable (fst (add_all table_name docs c)).
Proof.
  intros Hwf Hc. unfold add_all, bind, _check_table.
  destruct (mem_string table_name (map fst TABLES)); [|exact Hc].
  now apply reachable_add_rows.
Qed.

End Batches.

(** X15.  A list may be added in one call of [add_all] or in two: when the
    first part was added without an error, adding the second part gives
    the connection and the outcome of adding the whole list at once. *)
Theorem add_all_in_two_calls (table_name : string) (a b : list json) (c : conn) :
  snd (add_all table_name a c) = Ok tt ->
  add_all table_name b (fst (add_all table_name a c))
  = add_all table_name (a ++ b) c.
Proof.
  unfold add_all, bind, _check_table.
  destruct (mem_string table_name (map fst TABLES)); [|discriminate].
  unfold ret. rewrite add_rows_app.
  destruct (add_rows table_name a c) as [c1 [[]|e]]; [reflexivity | discriminate].
Qed.

Lemma add_all_in_two_calls_witness :
  add_all "issues" [doc_xy] (fst (add_all "issues" [doc_a; doc_b] fresh))
  = add_all "issues" ([doc_a; doc_b] ++ [doc_xy]) fresh.
Proof.
  apply (add_all_in_two_calls "issues" [doc_a; doc_b] [doc_xy] fresh). reflexivity.
Defined.

(** X16.  The store stays readable.  On every connection the program
    reaches from a new database file with [add_row], [add_all],
    [get_all], [find] and [close], as long as it is open, [get_all]
    returns a list for every table of the registry: no call of the class
    leaves a row behind that [json.loads] refuses, and none removes a
    table. *)
Theorem store_stays_readable (table_name : string) (c : conn) :
  reachable c ->
  registered table_name = true ->
  closed c = false ->
  exists docs, snd (get_all table_name c) = Ok docs.
Proof.
  intros Hreach Hreg Hopen.
  destruct (reachable_intact c Hreach table_name) as [Hintact Hexists].
  destruct (Hexists Hreg) as (rows & Hrows).
  unfold registered in Hreg. unfold intact in Hintact. rewrite Hrows in Hintact.
  rewrite get_all_cases, Hreg. cbv zeta. rewrite Hopen, Hrows. simpl.
  destruct (load_rows_loadable [] rows Hintact) as (docs & ->). eauto.
Qed.

Lemma store_stays_readable_witness :
  exists docs,
    snd (get_all "issues"
           (fst (fst (find "issues" [("name", PStr "it's")]
                        (fst (add_all "issues" [doc_quote; doc_xy] fresh))))))
    = Ok docs.
Proof.
  apply (store_stays_readable "issues").
  - apply reach_find. apply reachable_add_all; [reflexivity | apply reach_open].
  - reflexivity.
  - reflexivity.
Defined.

Section Undisturbed.

Lemma get_all_keeps (table_name : string) (c : conn) :
  tables (fst (get_all table_name c)) = tables c
  /\ closed (fst (get_all table_name c)) = closed c.
Proof.
  rewrite get_all_cases.
  destruct (mem_string table_name (map fst TABLES)); [|auto].
  cbv zeta. now destruct (closed c) eqn:E.
Qed.

Lemma get_all_outcome_ext (table_name : string) (c c' : conn) :
  closed c = closed c' -> tables c = tables c' ->
  snd (get_all table_name c) = snd (get_all table_name c').
Proof.
  intros Hc Ht. rewrite !get_all_cases.
  destruct (mem_string table_name (map fst TABLES)); [|reflexivity].
  cbv zeta. rewrite Hc, Ht. now destruct (closed c').
Qed.

End Undisturbed.

(** X17.  Reading does not disturb reading: [get_all] answers the same
    after a [get_all] or a [find] on any table and with any query as it
    did before. *)
Theorem reads_do_not_disturb (table_name other : string)
    (query : list (string * pyval)) (c : conn) :
  snd (get_all table_name (fst (get_all other c))) = snd (get_all table_name c)
  /\ snd (get_all table_name (fst (fst (find other query c))))
     = snd (get_all table_name c).
Proof.
  split; apply get_all_outcome_ext.
  - apply get_all_keeps.
  - apply get_all_keeps.
  - apply find_keeps_tables.
  - apply find_keeps_tables.
Qed.

Section Quoting.

Lemma quoted_so_far (done : list (string * pyval)) (k : string) (v : pyval)
    (todo : list (string * pyval)) :
  map quote_entry (done ++ [(k, v)]) ++ todo
  = map quote_entry done ++ (k, quote v) :: todo.
Proof. now rewrite map_app, <- app_assoc. Qed.

(** The loop, started when the entries [done] have been visited and the
    entries [todo] have not. *)
Lemma find_loop_quotes (table_name : string) (todo : list (string * pyval)) :
  forall (done : list (string * pyval)) (results : list json) (c : conn),
    nodup_keys (map fst (done ++ todo)) = true ->
    exists n,
      n <= length todo
      /\ snd (fst (find_loop (map fst todo) table_name
                     (map quote_entry done ++ todo) results c))
         = map quote_entry (done ++ firstn n todo) ++ skipn n todo
      /\ trace (fst (fst (find_loop (map fst todo) table_name
                            (map quote_entry done ++ todo) results c)))
         = trace c
           ++ map (fun i => select_where table_name
                              (map quote_entry (done ++ firstn i todo)
                               ++ skipn i todo))
                  (seq 1 n)
      /\ (forall l, snd (find_loop (map fst todo) table_name
                           (map quote_entry done ++ todo) results c) = Ok l ->
            n = length todo)
      /\ (forall e, snd (find_loop (map fst todo) table_name
                           (map quote_entry done ++ todo) results c) = Raise e ->
            1 <= n).
Proof.
  induction todo as [|[k v] todo IH]; intros done results c Hkeys.
  - exists 0. cbn [map find_loop fst snd firstn skipn seq length].
    rewrite !app_nil_r. repeat split; [lia | discriminate].
  - assert (Hfresh : mem_string k (map fst (map quote_entry done)) = false).
    { rewrite keys_quote. apply (nodup_keys_fresh k _ (map fst todo)).
      now rewrite map_app in Hkeys. }
    cbn [map fst find_loop]. rewrite (dict_get_fresh k v _ todo Hfresh).
    assert (Hq : match v with
                 | PStr _ => dict_set k (quote v)
                               (map quote_entry done ++ (k, v) :: todo)
                 | _ => map quote_entry done ++ (k, v) :: todo
                 end
                 = map quote_entry (done ++ [(k, v)]) ++ todo).
    { rewrite quoted_so_far.
      destruct v; try reflexivity. now apply dict_set_at. }
    cbv zeta. rewrite Hq. fold (select_where table_name
                                  (map quote_entry (done ++ [(k, v)]) ++ todo)).
    set (sql := select_where table_name
                  (map quote_entry (done ++ [(k, v)]) ++ todo)).
    assert (Hone : map (fun i => select_where table_name
                                   (map quote_entry (done ++ firstn i ((k, v) :: todo))
                                    ++ skipn i ((k, v) :: todo)))
                       (seq 1 1) = [sql]) by reflexivity.
    destruct (execute_trace sql [] c) as [Ht _].
    destruct (execute sql [] c) as [c1 [rs|e]]; cbn [fst] in Ht.
    + destruct (load_rows results rs) as [results1|e].
      * destruct (IH (done ++ [(k, v)]) results1 c1) as (n & Hle & Hquery & Htrace & Hok & _).
        { now rewrite <- app_assoc. }
        exists (S n). rewrite Hquery, Htrace, Ht.
        cbn [length firstn skipn]. rewrite <- !app_assoc. cbn [app].
        repeat split; [lia | | | lia].
        -- f_equal. change (seq 1 (S n)) with (1 :: seq 2 n). cbn [map].
           f_equal. rewrite <- (seq_shift n 1), map_map.
           apply map_ext. intros i. cbn [firstn skipn].
           now rewrite <- app_assoc.
        -- intros l Hl. now rewrite (Hok l Hl).
      * exists 1. cbn [fst snd]. rewrite Ht, Hone.
        cbn [length firstn skipn].
        repeat split; [lia | discriminate | lia].
    + exists 1. cbn [fst snd]. rewrite Ht, Hone.
      cbn [length firstn skipn].
      repeat split; [lia | discriminate | lia].
Qed.

End Quoting.

(** X18.  [find] quotes as it sends.  On a query with no key twice, as
    every dict is, [find] visits some number [n] of the entries, in their
    order, and stops there: the dict of the caller has the strings of the
    first [n] entries between single quotes and every other entry as it
    was, a value that is no string being left as it is by [quote_entry].
    The statement sent at the entry [i] is written from the query in which
    the first [i] entries have been visited and the later ones not.  When
    [find] returns it has visited every entry; when it raises it has
    visited one entry at least, and the last statement sent is the one of
    the last entry visited. *)
Theorem find_quotes_as_it_sends (table_name : string)
    (query : list (string * pyval)) (c : conn) :
  nodup_keys (map fst query) = true ->
  exists n,
    n <= length query
    /\ snd (fst (find table_name query c))
       = map quote_entry (firstn n query) ++ skipn n query
    /\ trace (fst (fst (find table_name query c)))
       = trace c
         ++ map (fun i => select_where table_name
                            (map quote_entry (firstn i query) ++ skipn i query))
                (seq 1 n)
    /\ (forall l, snd (find table_name query c) = Ok l -> n = length query)
    /\ (forall e, snd (find table_name query c) = Raise e -> 1 <= n).
Proof.
  intros Hkeys. exact (find_loop_quotes table_name query [] [] c Hkeys).
Qed.

Lemma find_quotes_as_it_sends_witness :
  exists n,
    n <= length [("a", PStr "x"); ("n", PInt 1); ("b", PStr "y")]
    /\ snd (fst (find "issues" [("a", PStr "x"); ("n", PInt 1); ("b", PStr "y")] stocked))
       = map quote_entry (firstn n [("a", PStr "x"); ("n", PInt 1); ("b", PStr "y")])
         ++ skipn n [("a", PStr "x"); ("n", PInt 1); ("b", PStr "y")]
    /\ trace (fst (fst (find "issues" [("a", PStr "x"); ("n", PInt 1); ("b", PStr "y")] stocked)))
       = trace stocked
         ++ map (fun i => select_where "issues"
                            (map quote_entry
                               (firstn i [("a", PStr "x"); ("n", PInt 1); ("b", PStr "y")])
                             ++ skipn i [("a", PStr "x"); ("n", PInt 1); ("b", PStr "y")]))
                (seq 1 n)
    /\ (forall l, snd (find "issues" [("a", PStr "x"); ("n", PInt 1); ("b", PStr "y")] stocked)
                  = Ok l -> n = 3)
    /\ (forall e, snd (find "issues" [("a", PStr "x"); ("n", PInt 1); ("b", PStr "y")] stocked)
                  = Raise e -> 1 <= n).
Proof.
  apply (find_quotes_as_it_sends "issues"
           [("a", PStr "x"); ("n", PInt 1); ("b", PStr "y")] stocked).
  reflexivity.
Defined.
